(** * reportbro/containers.py: the page-flow layout of a container

    A shallow embedding of [Container], [Frame] and [ReportBand] and of
    the flow algorithm that places document elements page by page.

    Python objects are shared and mutable: the elements of a container
    are reached through [doc_elements], [sorted_elements], predecessor
    links and successor lists at the same time.  The embedding therefore
    keeps one store of element states addressed by references, and the
    container only holds references. *)

From Stdlib Require Import ZArith List Bool Lia Permutation Sorted.
From stdpp Require Import base tactics option list functions gmap.

Local Open Scope Z_scope.

(** ** Elements (the contract of reportbro/elements.py) *)

(** A reference to an element object. *)
Abbreviation ref := nat.

(** What a method leaves behind: a value, a Python exception (an
    operation on a list that is still [None]), or a loop of the model
    that ran out of steps. *)
Inductive outcome (A : Type) :=
| Ok (a : A)
| Raise
| OutOfFuel.
Arguments Ok {A} a.
Arguments Raise {A}.
Arguments OutOfFuel {A}.

Section Flow.

(** What an element keeps for itself (text lines still to print, table
    rows, ...), a render fragment, the evaluation context and the pdf
    document are opaque to the container. *)
Context {Content Frag Ctx PdfDoc : Type}.

(** The attributes of a [DocElementBase] the container reads or writes.
    [is_page_break] stands for [isinstance(elem, PageBreakElement)]. *)
Record DocElement := mkDocElement {
  id : Z;
  is_page_break : bool;
  x : Z;
  y : Z;
  bottom : Z;
  sort_order : Z;
  spreadsheet_hide : bool;
  first_render_element : bool;
  rendering_complete : bool;
  render_bottom : Z;
  predecessor : option ref;
  successors : list ref;
  content : Content
}.

(** The heap of element objects: every reference denotes an object. *)
Definition Store := ref -> DocElement.

Definition with_render_state (frst cmpl : bool) (e : DocElement) : DocElement :=
  mkDocElement (id e) (is_page_break e) (x e) (y e) (bottom e) (sort_order e)
    (spreadsheet_hide e) frst cmpl (render_bottom e)
    (predecessor e) (successors e) (content e).

Definition with_predecessor (p : option ref) (e : DocElement) : DocElement :=
  mkDocElement (id e) (is_page_break e) (x e) (y e) (bottom e) (sort_order e)
    (spreadsheet_hide e) (first_render_element e) (rendering_complete e)
    (render_bottom e) p (successors e) (content e).

Definition with_successors (l : list ref) (e : DocElement) : DocElement :=
  mkDocElement (id e) (is_page_break e) (x e) (y e) (bottom e) (sort_order e)
    (spreadsheet_hide e) (first_render_element e) (rendering_complete e)
    (render_bottom e) (predecessor e) l (content e).

(** Modelled from the spec: [set_predecessor] of elements.py, which is
    not part of the sources at hand.  The element contract lists
    "predecessor set/get" and describes [successors] as the reverse
    edges: the element records its predecessor and the predecessor
    records the element among its successors. *)
Definition set_predecessor (elem p : ref) (st : Store) : Store :=
  let st1 := alter (with_predecessor (Some p)) elem st in
  alter (fun e => with_successors (successors e ++ [elem]) e) p st1.

(** Modelled from the spec: [finish_empty_element] of elements.py, which
    is not part of the sources at hand.  The spec has a suppressed
    element marked complete immediately with zero footprint: its
    rendered bottom is the offset it was given. *)
Definition finish_empty_element (offset_y : Z) (e : DocElement) : DocElement :=
  mkDocElement (id e) (is_page_break e) (x e) (y e) (bottom e) (sort_order e)
    (spreadsheet_hide e) (first_render_element e) true offset_y
    (predecessor e) (successors e) (content e).

(** The methods of an element that the container calls and that depend
    on the kind of element. *)
Variable elem_prepare : Ctx -> option PdfDoc -> bool -> DocElement -> DocElement.
Variable is_printed : Ctx -> DocElement -> bool.
Variable get_next_render_element :
  DocElement -> Z -> Z -> Ctx -> option PdfDoc -> option Frag * bool * DocElement.
Variable elem_render_spreadsheet : DocElement -> Z -> Z -> Ctx -> Z * Z.

(** ** Containers *)

(** An entry of [render_elements]: a fragment handed out by the
    [get_next_render_element] of the element [owner], or a
    [PageBreakElement] built from [dict(y=...)].  What an element hands
    out is a fragment of its own content, never a page break. *)
Inductive RenderElement :=
| Fragment (owner : ref) (f : Frag)
| PageBreakElement (py : Z).

Definition is_page_break_render (re : RenderElement) : bool :=
  match re with PageBreakElement _ => true | Fragment _ _ => false end.

(** [sorted_elements] and [render_elements] are [None] until [prepare]
    assigns them. *)
Record Container := mkContainer {
  doc_elements : list ref;
  width : Z;
  height : Z;
  allow_page_break : bool;
  container_offset_y : Z;
  sorted_elements : option (list ref);
  render_elements : option (list RenderElement);
  explicit_page_break : bool;
  page_y : Z
}.

(** [Container.__init__] *)
Definition Container_init : Container :=
  mkContainer [] 0 0 true 0 None None true 0.

(** [Container.add] *)
Definition add (doc_element : ref) (c : Container) : Container :=
  mkContainer (doc_elements c ++ [doc_element]) (width c) (height c)
    (allow_page_break c) (container_offset_y c) (sorted_elements c)
    (render_elements c) (explicit_page_break c) (page_y c).


Inductive BandType := content_band | header_band | footer_band.

Record DocumentProperties := mkDocumentProperties {
  page_width : Z;
  margin_left : Z;
  margin_right : Z;
  content_height : Z;
  header_size : Z;
  footer_size : Z
}.

(** [ReportBand.__init__] *)
Definition ReportBand_init (band : BandType) (dp : DocumentProperties) : Container :=
  let w := page_width dp - margin_left dp - margin_right dp in
  match band with
  | content_band => mkContainer [] w (content_height dp) true 0 None None true 0
  | header_band => mkContainer [] w (header_size dp) false 0 None None true 0
  | footer_band => mkContainer [] w (footer_size dp) false 0 None None true 0
  end.

(** ** [sorted(..., key=...)] on pairs of integers *)

(** Tuples compare lexicographically. *)
Definition key_le (k1 k2 : Z * Z) : bool :=
  (k1.1 <? k2.1) || ((k1.1 =? k2.1) && (k1.2 <=? k2.2)).

Fixpoint insert_sorted (key : ref -> Z * Z) (a : ref) (l : list ref) : list ref :=
  match l with
  | [] => [a]
  | b :: l' =>
      if key_le (key a) (key b) then a :: l else b :: insert_sorted key a l'
  end.

(** Python's [sorted] is stable: an element stays in front of the later
    elements with an equal key. *)
Definition py_sorted (key : ref -> Z * Z) (l : list ref) : list ref :=
  foldr (insert_sorted key) [] l.

(** ** [Container.prepare] *)

(** One turn of the loop over [doc_elements] (lines 30-37). *)
Definition prepare_element (allow : bool) (ctx : Ctx) (pdf_doc : option PdfDoc)
    (only_verify : bool) (acc : list ref * Store) (elem : ref) : list ref * Store :=
  let '(sorted, st) := acc in
  if bool_decide (is_Some pdf_doc) || negb (spreadsheet_hide (st elem)) || only_verify then
    let st1 := alter (elem_prepare ctx pdf_doc only_verify) elem st in
    let st2 := if negb allow then alter (with_render_state true false) elem st1 else st1 in
    (sorted ++ [elem], st2)
  else acc.

(** One turn of the scan [for j in range(i-1, -1, -1)] (lines 45-48). *)
Definition scan_step (st : Store) (elem : ref) (pred : option ref) (elem2 : ref)
    : option ref :=
  if (bottom (st elem2) <=? y (st elem)) &&
     match pred with
     | None => true
     | Some p => bottom (st p) <? bottom (st elem2)
     end
  then Some elem2 else pred.

(** The scan [for j in range(n-1, -1, -1)] from the candidate [pred]
    on: the element at [n-1] is looked at first, the one at [0] last.
    The scan for the element at index [i] has [n = i], so every [j] is
    inside the queue and the last case never runs. *)
Fixpoint scan_down (st : Store) (sorted : list ref) (elem : ref) (n : nat)
    (pred : option ref) : option ref :=
  match n with
  | O => pred
  | S j =>
      match sorted !! j with
      | Some elem2 => scan_down st sorted elem j (scan_step st elem pred elem2)
      | None => pred
      end
  end.

(** The candidate left in [predecessor] after the scan for the element
    at index [i] (lines 43-48). *)
Definition find_predecessor (st : Store) (sorted : list ref) (i : nat) (elem : ref)
    : option ref :=
  scan_down st sorted elem i None.

(** One turn of [for i, elem in enumerate(self.sorted_elements)]. *)
Definition assign_predecessor (sorted : list ref) (i : nat) (elem : ref) (st : Store)
    : Store :=
  match find_predecessor st sorted i elem with
  | Some p => if negb (is_page_break (st p)) then set_predecessor elem p st else st
  | None => st
  end.

Fixpoint assign_predecessors (sorted : list ref) (i : nat) (rest : list ref)
    (st : Store) : Store :=
  match rest with
  | [] => st
  | elem :: rest' =>
      assign_predecessors sorted (S i) rest' (assign_predecessor sorted i elem st)
  end.

(** The loop over [doc_elements] (lines 29-37): the elements collected
    for the queue, in the order in which they were added, and the heap
    after their own [prepare]. *)
Definition prepare_loop (ctx : Ctx) (pdf_doc : option PdfDoc) (only_verify : bool)
    (c : Container) (st : Store) : list ref * Store :=
  fold_left (prepare_element (allow_page_break c) ctx pdf_doc only_verify)
    (doc_elements c) ([], st).

Definition prepare (ctx : Ctx) (pdf_doc : option PdfDoc) (only_verify : bool)
    (c : Container) (st : Store) : Container * Store :=
  let '(collected, st1) := prepare_loop ctx pdf_doc only_verify c st in
  if bool_decide (is_Some pdf_doc) then
    let sorted := py_sorted (fun r => (y (st1 r), sort_order (st1 r))) collected in
    let st2 := assign_predecessors sorted 0 sorted st1 in
    (mkContainer (doc_elements c) (width c) (height c) (allow_page_break c)
       (container_offset_y c) (Some sorted) (Some []) (explicit_page_break c)
       (page_y c), st2)
  else
    let sorted := py_sorted (fun r => (y (st1 r), x (st1 r))) collected in
    (mkContainer (doc_elements c) (width c) (height c) (allow_page_break c)
       (container_offset_y c) (Some sorted) (render_elements c)
       (explicit_page_break c) (page_y c), st1).

(** ** [Container.create_render_elements] *)

Definition with_sorted_elements (l : list ref) (c : Container) : Container :=
  mkContainer (doc_elements c) (width c) (height c) (allow_page_break c)
    (container_offset_y c) (Some l) (render_elements c) (explicit_page_break c)
    (page_y c).

Definition with_render_elements (l : list RenderElement) (c : Container) : Container :=
  mkContainer (doc_elements c) (width c) (height c) (allow_page_break c)
    (container_offset_y c) (sorted_elements c) (Some l) (explicit_page_break c)
    (page_y c).

Definition with_explicit_page_break (b : bool) (c : Container) : Container :=
  mkContainer (doc_elements c) (width c) (height c) (allow_page_break c)
    (container_offset_y c) (sorted_elements c) (render_elements c) b (page_y c).

Definition with_page_y (v : Z) (c : Container) : Container :=
  mkContainer (doc_elements c) (width c) (height c) (allow_page_break c)
    (container_offset_y c) (sorted_elements c) (render_elements c)
    (explicit_page_break c) v.

(** The local variables of the method, the container and the heap. *)
Record LoopState := mkLoopState {
  i : nat;
  new_page : bool;
  processed_elements : list ref;
  completed_elements : gmap Z bool;
  set_explicit_page_break : bool;
  self : Container;
  store : Store
}.

(** Where the control goes after a turn of the loop: on to the loop
    test, or out of the method by [return]. *)
Inductive flow :=
| Next (s : LoopState)
| Return (b : bool) (c : Container) (st : Store).

(** The test of line 69: the element has a predecessor that did not
    complete during this call. *)
Definition blocked (completed : gmap Z bool) (st : Store) (elem : DocElement) : bool :=
  match predecessor elem with
  | Some p =>
      match completed !! id (st p) with
      | None => true
      | Some _ => negb (rendering_complete (st p))
      end
  | None => false
  end.

(** [offset_y] as computed in lines 87-97. *)
Definition placement_offset (c : Container) (st : Store) (elem : DocElement) : Z :=
  match predecessor elem with
  | Some p => render_bottom (st p) + (y elem - bottom (st p))
  | None =>
      if allow_page_break c then
        if first_render_element elem && explicit_page_break c
        then y elem - page_y c
        else 0
      else y elem
  end.

(** Lines 113-118, shared by the printed and the suppressed element:
    a complete element is entered in [completed_elements] and deleted
    from the queue, any other element is stepped over. *)
Definition consume (complete : bool) (r : ref) (sorted : list ref)
    (np : bool) (processed : list ref) (c : Container) (st : Store)
    (s : LoopState) : LoopState :=
  if complete then
    mkLoopState (i s) np processed
      (<[id (st r) := true]> (completed_elements s))
      (set_explicit_page_break s)
      (with_sorted_elements (delete (i s) sorted) c) st
  else
    mkLoopState (S (i s)) np processed (completed_elements s)
      (set_explicit_page_break s) c st.

(** The body of the [while] loop (lines 68-118).  The loop test keeps
    [i] inside the queue; an index outside would raise as well. *)
Definition body (container_height : Z) (ctx : Ctx) (pdf_doc : option PdfDoc)
    (s : LoopState) : outcome flow :=
  match sorted_elements (self s) with
  | None => Raise
  | Some sorted =>
  match sorted !! i s with
  | None => Raise
  | Some r =>
      let st := store s in
      let elem := st r in
      if blocked (completed_elements s) st elem then
        Ok (Next (mkLoopState (i s) true (processed_elements s)
                    (completed_elements s) (set_explicit_page_break s)
                    (self s) st))
      else if is_page_break elem then
        if allow_page_break (self s) then
          Ok (Next (mkLoopState (i s) true (processed_elements s)
                      (completed_elements s) true
                      (with_page_y (y elem)
                         (with_sorted_elements (delete (i s) sorted) (self s)))
                      st))
        else
          Ok (Return true (with_sorted_elements [] (self s)) st)
      else
        let offset_y := placement_offset (self s) st elem in
        if is_printed ctx elem then
          if offset_y >=? container_height then
            Ok (Next (consume false r sorted true (processed_elements s)
                        (self s) st s))
          else
            let '(render_elem, complete, elem') :=
              get_next_render_element elem offset_y container_height ctx pdf_doc in
            let st' := <[r := elem']> st in
            match render_elem with
            | Some f =>
                match render_elements (self s) with
                | None => Raise
                | Some rs =>
                    Ok (Next (consume complete r sorted false
                                (if complete then processed_elements s ++ [r]
                                 else processed_elements s)
                                (with_render_elements (rs ++ [Fragment r f]) (self s))
                                st' s))
                end
            | None =>
                Ok (Next (consume complete r sorted false (processed_elements s)
                            (self s) st' s))
            end
        else
          Ok (Next (consume true r sorted false (processed_elements s ++ [r])
                      (self s) (alter (finish_empty_element offset_y) r st) s))
  end
  end.

(** The test of the [while] loop (line 67); [len] of a queue that is
    still [None] raises. *)
Definition loop_test (s : LoopState) : outcome bool :=
  if new_page s then Ok false
  else match sorted_elements (self s) with
       | None => Raise
       | Some sorted => Ok (i s <? length sorted)%nat
       end.

Fixpoint while_loop (fuel : nat) (container_height : Z) (ctx : Ctx)
    (pdf_doc : option PdfDoc) (s : LoopState) : outcome flow :=
  match loop_test s with
  | Ok true =>
      match fuel with
      | O => OutOfFuel
      | S fuel' =>
          match body container_height ctx pdf_doc s with
          | Ok (Next s') => while_loop fuel' container_height ctx pdf_doc s'
          | other => other
          end
      end
  | Ok false => Ok (Next s)
  | Raise => Raise
  | OutOfFuel => OutOfFuel
  end.

(** Lines 126-130: the successors of a processed element forget their
    predecessor. *)
Definition sever_successors (processed : list ref) (st : Store) : Store :=
  fold_left
    (fun st1 processed_element =>
       fold_left (fun st2 successor => alter (with_predecessor None) successor st2)
         (successors (st1 processed_element)) st1)
    processed st.

(** Lines 122-131, after the loop. *)
Definition finish_pass (s : LoopState) : outcome (bool * Container * Store) :=
  let c :=
    with_explicit_page_break
      (if allow_page_break (self s) then set_explicit_page_break s else true)
      (self s) in
  match sorted_elements c with
  | None => Raise
  | Some sorted =>
      if (0 <? length sorted)%nat then
        match render_elements c with
        | None => Raise
        | Some rs =>
            Ok ((length sorted =? 0)%nat,
                with_render_elements (rs ++ [PageBreakElement (-1)]) c,
                sever_successors (processed_elements s) (store s))
        end
      else Ok ((length sorted =? 0)%nat, c, store s)
  end.

Definition initial_state (c : Container) (st : Store) : LoopState :=
  mkLoopState 0 false [] ∅ false c st.

(** The loop leaves after at most one turn per pending element. *)
Definition loop_fuel (c : Container) : nat :=
  match sorted_elements c with
  | Some sorted => length sorted
  | None => 0
  end.

(** The rest of a call from a state of the loop: the loop, then the
    lines after it unless the body returned. *)
Definition resume (fuel : nat) (container_height : Z) (ctx : Ctx)
    (pdf_doc : option PdfDoc) (s : LoopState) : outcome (bool * Container * Store) :=
  match while_loop fuel container_height ctx pdf_doc s with
  | Ok (Next s') => finish_pass s'
  | Ok (Return b c' st') => Ok (b, c', st')
  | Raise => Raise
  | OutOfFuel => OutOfFuel
  end.

Definition create_render_elements (container_height : Z) (ctx : Ctx)
    (pdf_doc : option PdfDoc) (c : Container) (st : Store)
    : outcome (bool * Container * Store) :=
  resume (loop_fuel c) container_height ctx pdf_doc (initial_state c st).

(** ** [Container.render_pdf] *)

(** The loop of lines 135-141: [counter] and the fragments handed to
    the pdf document, in order. *)
Fixpoint render_pdf_loop (l : list RenderElement) (counter : nat)
    (rendered : list (ref * Frag)) : nat * list (ref * Frag) :=
  match l with
  | [] => (counter, rendered)
  | PageBreakElement _ :: _ => (S counter, rendered)
  | Fragment r f :: l' => render_pdf_loop l' (S counter) (rendered ++ [(r, f)])
  end.

Definition render_pdf (c : Container) : outcome (list (ref * Frag) * Container) :=
  match render_elements c with
  | None => Raise
  | Some rs =>
      let '(counter, rendered) := render_pdf_loop rs 0%nat [] in
      Ok (rendered, with_render_elements (drop counter rs) c)
  end.

(** ** [Container.render_spreadsheet] *)

(** The inner loop of lines 152-158 over [sorted_elements[j:]]. *)
Fixpoint collect_row (st : Store) (elem : ref) (rest : list ref) (j : nat)
    (row_elements : list ref) : nat * list ref :=
  match rest with
  | [] => (j, row_elements)
  | elem2 :: rest' =>
      if y (st elem2) =? y (st elem)
      then collect_row st elem rest' (S j) (row_elements ++ [elem2])
      else (j, row_elements)
  end.

(** A call of an element's [render_spreadsheet]: who was called, with
    which row and column, and what it reported. *)
Record Emission := mkEmission {
  em_elem : ref;
  em_row : Z;
  em_col : Z;
  em_tmp_row : Z;
  em_next_col : Z
}.

(** The loop of lines 162-166 over one row. *)
Fixpoint render_row (st : Store) (ctx : Ctx) (row_elements : list ref)
    (current_row current_col row max_col : Z) (emitted : list Emission)
    : Z * Z * list Emission :=
  match row_elements with
  | [] => (row, max_col, emitted)
  | row_element :: rest =>
      let '(tmp_row, next_col) :=
        elem_render_spreadsheet (st row_element) current_row current_col ctx in
      render_row st ctx rest current_row next_col (Z.max row tmp_row)
        (if next_col >? max_col then next_col else max_col)
        (emitted ++ [mkEmission row_element current_row current_col tmp_row next_col])
  end.

(** The outer loop of lines 148-166; [rows] collects the calls made for
    each turn, one list per logical row. *)
Fixpoint spreadsheet_loop (fuel : nat) (st : Store) (ctx : Ctx) (sorted : list ref)
    (count : nat) (col : Z) (i : nat) (row max_col : Z) (rows : list (list Emission))
    : outcome (Z * Z * list (list Emission)) :=
  if (i <? count)%nat then
    match fuel with
    | O => OutOfFuel
    | S fuel' =>
        match sorted !! i with
        | None => Raise
        | Some elem =>
            let '(j, row_elements) :=
              collect_row st elem (drop (S i) sorted) (S i) [elem] in
            let '(row', max_col', emitted) :=
              render_row st ctx row_elements row col row max_col [] in
            spreadsheet_loop fuel' st ctx sorted count col j row' max_col'
              (rows ++ [emitted])
        end
    end
  else Ok (row, max_col, rows).

Definition render_spreadsheet (row col : Z) (ctx : Ctx) (c : Container) (st : Store)
    : outcome (Z * Z * list (list Emission)) :=
  match sorted_elements c with
  | None => Raise
  | Some sorted =>
      spreadsheet_loop (length sorted) st ctx sorted (length sorted) col 0%nat
        row col []
  end.

End Flow.

(** ** The remaining methods of [Container] and [ReportBand] *)

Section Housekeeping.

Context {Content Frag : Type}.

(** The [cleanup] method of an element. *)
Variable elem_cleanup : @DocElement Content -> @DocElement Content.

(** [Container.is_visible] *)
Definition Container_is_visible (c : @Container Frag) : bool := true.

(** [ReportBand.is_visible]; [header] and [footer] are the flags of the
    document properties that switch the bands on. *)
Definition ReportBand_is_visible (band : BandType) (header footer : bool) : bool :=
  match band with
  | header_band => header
  | footer_band => footer
  | content_band => true
  end.

(** [Container.is_finished]; [len] of a list that is still [None]
    raises. *)
Definition is_finished (c : @Container Frag) : outcome bool :=
  match render_elements c with
  | None => Raise
  | Some rs => Ok (length rs =? 0)%nat
  end.

(** [Container.cleanup] *)
Definition cleanup (c : @Container Frag) (st : @Store Content) : @Store Content :=
  fold_left (fun st1 elem => alter elem_cleanup elem st1) (doc_elements c) st.

(** The fragments of a list of render elements, with their owners. *)
Definition fragments (l : list (@RenderElement Frag)) : list (ref * Frag) :=
  omap (fun re =>
          match re with
          | Fragment r f => Some (r, f)
          | PageBreakElement _ => None
          end) l.

(** The test of line 31 on the element as it is before [prepare]. *)
Definition collected_by_prepare (pdf_doc : bool) (only_verify : bool)
    (st : @Store Content) (r : ref) : bool :=
  pdf_doc || negb (spreadsheet_hide (st r)) || only_verify.

(** Two states of an element that differ at most in the links to the
    predecessor and the successors. *)
Definition same_but_links (e e' : @DocElement Content) : Prop :=
  with_predecessor None (with_successors [] e') =
  with_predecessor None (with_successors [] e).

(** Two states of an element that differ at most in the predecessor. *)
Definition same_but_predecessor (e e' : @DocElement Content) : Prop :=
  with_predecessor None e' = with_predecessor None e.

End Housekeeping.

(** ** The states a call goes through *)

Section Turns.

Context {Content Frag Ctx PdfDoc : Type}.
Variable is_printed : Ctx -> @DocElement Content -> bool.
Variable get_next_render_element :
  @DocElement Content -> Z -> Z -> Ctx -> option PdfDoc ->
  option Frag * bool * @DocElement Content.

(** The state of the [while] loop after [n] turns, when the loop makes
    that many: before each of them the test of line 67 holds and the
    body goes on to the test again. *)
Fixpoint after_turns (n : nat) (container_height : Z) (ctx : Ctx)
    (pdf_doc : option PdfDoc) (s : @LoopState Content Frag)
    : option (@LoopState Content Frag) :=
  match n with
  | O => Some s
  | S n' =>
      match loop_test s with
      | Ok true =>
          match body is_printed get_next_render_element container_height ctx
                  pdf_doc s with
          | Ok (Next s') => after_turns n' container_height ctx pdf_doc s'
          | _ => None
          end
      | _ => None
      end
  end.

End Turns.

(** ** Notions used to state the properties *)

Section Specification.

Context {Content : Type}.

(** [m] is the greatest of [start] and the values in [reported]. *)
Definition is_max (start : Z) (reported : list Z) (m : Z) : Prop :=
  start <= m /\ Forall (fun v => v <= m) reported /\ (m = start \/ m ∈ reported).

(** [runs] cuts a list into maximal runs of elements of one top: no
    run is empty, the elements of a run share their top, and a run
    does not go on into the next one. *)
Definition maximal_runs (st : @Store Content) (runs : list (list ref)) : Prop :=
  Forall (fun run =>
            run <> [] /\ forall a b, a ∈ run -> b ∈ run -> y (st a) = y (st b)) runs /\
  forall k run1 run2 a b,
    runs !! k = Some run1 -> runs !! S k = Some run2 ->
    a ∈ run1 -> b ∈ run2 -> y (st a) <> y (st b).

End Specification.

(** ** Concrete elements and containers *)

Module Examples.

(** An element with identity [n], top [top] and bottom [bot] that was
    never rendered. *)
Definition element (n : Z) (page_break : bool) (top bot : Z) : @DocElement unit :=
  mkDocElement n page_break 0 top bot (if page_break then 0 else 1)
    false true false 0 None [] tt.

Definition keep (ctx : unit) (pdf_doc : option unit) (only_verify : bool)
    (e : @DocElement unit) : @DocElement unit := e.

Definition always (ctx : unit) (e : @DocElement unit) : bool := true.
Definition never (ctx : unit) (e : @DocElement unit) : bool := false.

(** An element that renders in one piece and hands out the offset it
    was given as its fragment. *)
Definition render_whole (e : @DocElement unit) (offset_y container_height : Z)
    (ctx : unit) (pdf_doc : option unit) : option Z * bool * @DocElement unit :=
  (Some offset_y, true,
   mkDocElement (id e) (is_page_break e) (x e) (y e) (bottom e) (sort_order e)
     (spreadsheet_hide e) false true (offset_y + (bottom e - y e))
     (predecessor e) (successors e) (content e)).

(** An element that never finishes: it hands out a fragment and stays
    incomplete. *)
Definition render_part (e : @DocElement unit) (offset_y container_height : Z)
    (ctx : unit) (pdf_doc : option unit) : option Z * bool * @DocElement unit :=
  (Some offset_y, false, with_render_state false false e).

(** A cell that takes one row and one column. *)
Definition one_cell (e : @DocElement unit) (row col : Z) (ctx : unit) : Z * Z :=
  (row + 1, col + 1).

Definition container_of (l : list ref) : @Container Z :=
  fold_left (fun c r => add r c) l Container_init.

Definition header_of (l : list ref) : @Container Z :=
  fold_left (fun c r => add r c) l
    (ReportBand_init header_band (mkDocumentProperties 210 10 10 200 40 40)).

(** Text at 0..10, a manual page break at 20, text at 30..40. *)
Definition store_break : Store :=
  fun r =>
    match r with
    | 0%nat => element 0 false 0 10
    | 1%nat => element 1 true 20 20
    | _ => element 2 false 30 40
    end.

(** Text at 100..120 and text at 120..150 right below it. *)
Definition store_chain : Store :=
  fun r =>
    match r with
    | 0%nat => element 0 false 100 120
    | _ => element 1 false 120 150
    end.

(** A page break at 0 and text at 5..15. *)
Definition store_band : Store :=
  fun r =>
    match r with
    | 0%nat => element 0 true 0 0
    | _ => element 1 false 5 15
    end.

(** Three cells at top 0 and one at top 10. *)
Definition store_sheet : Store :=
  fun r =>
    match r with
    | 3%nat => mkDocElement 3 false 0 10 20 1 false true false 0 None [] tt
    | n => mkDocElement (Z.of_nat n) false (Z.of_nat n * 10) 0 10 1 false true false 0 None [] tt
    end.

(** A text of nominal extent 80..100 that was rendered down to 140 on
    this page, and a text at 120..130 chained to it. *)
Definition store_gap : Store :=
  fun r =>
    match r with
    | 0%nat => mkDocElement 0 false 0 80 100 1 false false true 140 None [1%nat] tt
    | _ => mkDocElement 1 false 0 120 130 1 false true false 0 (Some 0%nat) [] tt
    end.

(** The containers above after [prepare] for a pdf document. *)
Definition break_page : @Container Z * Store :=
  prepare keep tt (Some tt) false (container_of [0; 1; 2]%nat) store_break.

Definition chain_page : @Container Z * Store :=
  prepare keep tt (Some tt) false (container_of [0; 1]%nat) store_chain.

Definition single_page : @Container Z * Store :=
  prepare keep tt (Some tt) false (container_of [0%nat]) store_chain.

Definition band_page : @Container Z * Store :=
  prepare keep tt (Some tt) false (header_of [0; 1]%nat) store_band.

(** The cells after [prepare] for a spreadsheet. *)
Definition sheet : @Container Z * Store :=
  prepare keep tt None false (container_of [3; 2; 1; 0]%nat) store_sheet.

(** The loop at the second text of [chain_page] after the first text
    handed out a fragment without completing. *)
Definition chain_turn : @LoopState unit Z :=
  match body always render_part 1000 tt (Some tt)
          (initial_state chain_page.1 chain_page.2) with
  | Ok (Next s') => s'
  | _ => initial_state chain_page.1 chain_page.2
  end.

(** The loop at the chained text of [store_gap] after its predecessor
    completed on this page. *)
Definition gap_turn : @LoopState unit Z :=
  mkLoopState 0 false [0%nat] {[ 0 := true ]} false
    (mkContainer [0; 1]%nat 0 0 true 0 (Some [1%nat]) (Some [Fragment 0%nat 80])
       true 0)
    store_gap.

Definition gap_next : @LoopState unit Z :=
  match body always render_whole 500 tt (Some tt) gap_turn with
  | Ok (Next s') => s'
  | _ => gap_turn
  end.

End Examples.

(** ** More concrete containers *)

Module MoreExamples.

Import Examples.

(** An element that completes without handing out a fragment and
    reaches down to the end of the page. *)
Definition render_nothing (e : @DocElement unit) (offset_y container_height : Z)
    (ctx : unit) (pdf_doc : option unit) : option Z * bool * @DocElement unit :=
  (None, true,
   mkDocElement (id e) (is_page_break e) (x e) (y e) (bottom e) (sort_order e)
     (spreadsheet_hide e) false true container_height
     (predecessor e) (successors e) (content e)).

Definition mark_clean (e : @DocElement unit) : @DocElement unit :=
  with_render_state true false e.

(** A hidden cell at top 0 and a visible one at top 10. *)
Definition store_hidden : Store :=
  fun r =>
    match r with
    | 0%nat => mkDocElement 0 false 0 0 10 1 true true false 0 None [] tt
    | _ => mkDocElement 1 false 0 10 20 1 false true false 0 None [] tt
    end.

(** A header band of height 40 with a text at 50..60. *)
Definition store_low : Store :=
  fun r => element 0 false 50 60.

Definition low_band : @Container Z * Store :=
  prepare keep tt (Some tt) false (header_of [0%nat]) store_low.

(** [chain_page] after a page on which the first text completed
    without a fragment: the second text is still linked to it. *)
Definition chain_second_page : @Container Z * Store :=
  match create_render_elements always render_nothing 110 tt (Some tt)
          chain_page.1 chain_page.2 with
  | Ok (_, c, st) =>
      match render_pdf c with
      | Ok (_, c') => (c', st)
      | _ => chain_page
      end
  | _ => chain_page
  end.

(** The loop at the page break of [break_page] after the first text
    was rendered. *)
Definition break_turn : @LoopState unit Z :=
  match body always render_whole 100 tt (Some tt)
          (initial_state break_page.1 break_page.2) with
  | Ok (Next s') => s'
  | _ => initial_state break_page.1 break_page.2
  end.

(** The lines after the loop when the first text of [store_gap]
    completed and the chained text is pending. *)
Definition gap_end : @LoopState unit Z :=
  mkLoopState 0 true [0%nat] {[ 0 := true ]} false
    (mkContainer [0; 1]%nat 0 0 true 0 (Some [1%nat]) (Some [Fragment 0%nat 80])
       true 0)
    store_gap.

(** The cells of [store_hidden] after [prepare] for a spreadsheet, and
    the hidden cell alone. *)
Definition hidden_sheet : @Container Z * Store :=
  prepare keep tt None false (container_of [0; 1]%nat) store_hidden.

Definition hidden_only : @Container Z * Store :=
  prepare keep tt None false (container_of [0%nat]) store_hidden.

(** [break_page] after its first page. *)
Definition break_first_page : @Container Z :=
  match create_render_elements always render_whole 100 tt (Some tt)
          break_page.1 break_page.2 with
  | Ok (_, c, _) => c
  | _ => break_page.1
  end.


End MoreExamples.

(** ** Properties of the flow *)

Section Facts.

Context {Content Frag Ctx PdfDoc : Type}.
Variable elem_prepare :
  Ctx -> option PdfDoc -> bool -> @DocElement Content -> @DocElement Content.
Variable is_printed : Ctx -> @DocElement Content -> bool.
Variable get_next_render_element :
  @DocElement Content -> Z -> Z -> Ctx -> option PdfDoc ->
  option Frag * bool * @DocElement Content.
Variable elem_render_spreadsheet : @DocElement Content -> Z -> Z -> Ctx -> Z * Z.

Local Abbreviation prepare := (prepare elem_prepare).
Local Abbreviation prepare_loop := (prepare_loop elem_prepare).
Local Abbreviation body := (body is_printed get_next_render_element).
Local Abbreviation while_loop := (while_loop is_printed get_next_render_element).
Local Abbreviation resume := (resume is_printed get_next_render_element).
Local Abbreviation after_turns := (after_turns is_printed get_next_render_element).
Local Abbreviation create_render_elements :=
  (create_render_elements is_printed get_next_render_element).
Local Abbreviation render_spreadsheet := (render_spreadsheet elem_render_spreadsheet).

Implicit Types (s : @LoopState Content Frag) (c : @Container Frag)
  (st : @Store Content) (e : @DocElement Content).

(** *** Reading the heap after an update *)

Lemma store_alter_eq (g : DocElement -> DocElement) st r :
  alter g r st r = g (st r).
Proof. apply fn_lookup_alter. Qed.

Lemma store_alter_ne (g : DocElement -> DocElement) st r r' :
  r <> r' -> alter g r st r' = st r'.
Proof. apply fn_lookup_alter_ne. Qed.


Lemma store_insert_ne st r r' e : r <> r' -> <[r := e]> st r' = st r'.
Proof. apply fn_lookup_insert_ne. Qed.

(** *** The loop test and one turn *)

Lemma loop_test_true s sorted :
  sorted_elements (self s) = Some sorted ->
  new_page s = false ->
  (i s < length sorted)%nat ->
  loop_test s = Ok true.
Proof.
  intros Hs Hn Hi. unfold loop_test. rewrite Hn, Hs.
  f_equal. by apply Nat.ltb_lt.
Qed.

Lemma loop_test_new_page s : new_page s = true -> loop_test s = Ok false.
Proof. intros Hn. unfold loop_test. by rewrite Hn. Qed.

Lemma while_loop_stops fuel h ctx pdf s :
  new_page s = true -> while_loop fuel h ctx pdf s = Ok (Next s).
Proof. intros Hn. destruct fuel; simpl; by rewrite loop_test_new_page. Qed.

Lemma while_loop_turn fuel h ctx pdf s sorted :
  sorted_elements (self s) = Some sorted ->
  new_page s = false ->
  (i s < length sorted)%nat ->
  while_loop (S fuel) h ctx pdf s =
    match body h ctx pdf s with
    | Ok (Next s') => while_loop fuel h ctx pdf s'
    | other => other
    end.
Proof. intros Hs Hn Hi. simpl. by rewrite (loop_test_true s sorted). Qed.

Lemma blocked_false_inv completed st e p :
  blocked completed st e = false ->
  predecessor e = Some p ->
  is_Some (completed !! id (st p)) /\ rendering_complete (st p) = true.
Proof.
  unfold blocked. intros Hb Hp. rewrite Hp in Hb.
  destruct (completed !! id (st p)) eqn:Hc; [|done].
  split; [by eexists|]. by apply negb_false_iff.
Qed.

Lemma blocked_true_intro completed st e p :
  predecessor e = Some p ->
  completed !! id (st p) = None \/ rendering_complete (st p) = false ->
  blocked completed st e = true.
Proof.
  unfold blocked. intros -> [-> | Hr]; [done|].
  rewrite Hr. by destruct (completed !! id (st p)).
Qed.

(** A turn on a blocked element only raises [new_page]. *)
Lemma body_blocked h ctx pdf s sorted r :
  sorted_elements (self s) = Some sorted ->
  sorted !! i s = Some r ->
  blocked (completed_elements s) (store s) (store s r) = true ->
  body h ctx pdf s =
    Ok (Next (mkLoopState (i s) true (processed_elements s) (completed_elements s)
                (set_explicit_page_break s) (self s) (store s))).
Proof. intros Hs Hr Hb. unfold body. by rewrite Hs, Hr, Hb. Qed.

(** A turn on an element that is not blocked, is no page break and is
    not printed. *)
Lemma body_suppressed h ctx pdf s sorted r :
  sorted_elements (self s) = Some sorted ->
  sorted !! i s = Some r ->
  blocked (completed_elements s) (store s) (store s r) = false ->
  is_page_break (store s r) = false ->
  is_printed ctx (store s r) = false ->
  body h ctx pdf s =
    Ok (Next (consume true r sorted false (processed_elements s ++ [r]) (self s)
                (alter (finish_empty_element
                          (placement_offset (self s) (store s) (store s r)))
                   r (store s)) s)).
Proof. intros Hs Hr Hb Hpb Hp. unfold body. by rewrite Hs, Hr, Hb, Hpb, Hp. Qed.

(** A turn on a printed element whose offset leaves no room. *)
Lemma body_overflow h ctx pdf s sorted r :
  sorted_elements (self s) = Some sorted ->
  sorted !! i s = Some r ->
  blocked (completed_elements s) (store s) (store s r) = false ->
  is_page_break (store s r) = false ->
  is_printed ctx (store s r) = true ->
  h <= placement_offset (self s) (store s) (store s r) ->
  body h ctx pdf s =
    Ok (Next (consume false r sorted true (processed_elements s) (self s) (store s) s)).
Proof.
  intros Hs Hr Hb Hpb Hp Hoff. unfold body. rewrite Hs, Hr, Hb, Hpb, Hp.
  destruct (Z.geb_spec (placement_offset (self s) (store s) (store s r)) h); [done|lia].
Qed.

(** A turn on a printed element that has room: the element is asked for
    its next fragment. *)
Lemma body_rendered h ctx pdf s sorted rs r :
  sorted_elements (self s) = Some sorted ->
  render_elements (self s) = Some rs ->
  sorted !! i s = Some r ->
  blocked (completed_elements s) (store s) (store s r) = false ->
  is_page_break (store s r) = false ->
  is_printed ctx (store s r) = true ->
  placement_offset (self s) (store s) (store s r) < h ->
  body h ctx pdf s =
    let '(render_elem, complete, elem') :=
      get_next_render_element (store s r)
        (placement_offset (self s) (store s) (store s r)) h ctx pdf in
    Ok (Next (consume complete r sorted false
                (if complete && bool_decide (is_Some render_elem)
                 then processed_elements s ++ [r] else processed_elements s)
                (match render_elem with
                 | Some f => with_render_elements (rs ++ [Fragment r f]) (self s)
                 | None => self s
                 end)
                (<[r := elem']> (store s)) s)).
Proof.
  intros Hs Hrs Hr Hb Hpb Hp Hoff. unfold body. rewrite Hs, Hr, Hb, Hpb, Hp.
  destruct (Z.geb_spec (placement_offset (self s) (store s) (store s r)) h); [lia|].
  destruct (get_next_render_element _ _ _ _ _) as [[[f|] complete] elem']; simpl.
  - rewrite Hrs. by destruct complete.
  - by rewrite andb_false_r.
Qed.

(** The lines after the loop when elements are left. *)
Lemma finish_pass_pending s sorted rs :
  sorted_elements (self s) = Some sorted ->
  render_elements (self s) = Some rs ->
  sorted <> [] ->
  finish_pass s =
    Ok (false,
        with_render_elements (rs ++ [PageBreakElement (-1)])
          (with_explicit_page_break
             (if allow_page_break (self s) then set_explicit_page_break s else true)
             (self s)),
        sever_successors (processed_elements s) (store s)).
Proof.
  intros Hs Hrs Hne. unfold finish_pass. simpl. rewrite Hs, Hrs.
  destruct sorted; [done|]. reflexivity.
Qed.

Lemma finish_pass_drained s :
  sorted_elements (self s) = Some [] ->
  finish_pass s =
    Ok (true,
        with_explicit_page_break
          (if allow_page_break (self s) then set_explicit_page_break s else true)
          (self s),
        store s).
Proof. intros Hs. unfold finish_pass. simpl. by rewrite Hs. Qed.

(** *** The claims about one turn of the loop *)

(** C1. An element with a predecessor gets a fragment appended to
    [render_elements] only in a turn in which the predecessor is entered
    in [completed_elements] (it completed during this call) and has
    [rendering_complete] set.  When the predecessor is not complete in
    this sense, the loop stops there: the call appends nothing but the
    page break that opens a new page, keeps the element in the queue
    and reports that the container is not drained. *)
Theorem dependent_waits_for_predecessor fuel h ctx pdf s sorted rs r p :
  sorted_elements (self s) = Some sorted ->
  render_elements (self s) = Some rs ->
  new_page s = false ->
  sorted !! i s = Some r ->
  predecessor (store s r) = Some p ->
  (forall s',
     body h ctx pdf s = Ok (Next s') ->
     render_elements (self s') <> Some rs ->
     is_Some (completed_elements s !! id (store s p)) /\
     rendering_complete (store s p) = true) /\
  (completed_elements s !! id (store s p) = None \/
   rendering_complete (store s p) = false ->
   exists c' st',
     resume (S fuel) h ctx pdf s = Ok (false, c', st') /\
     sorted_elements c' = Some sorted /\
     render_elements c' = Some (rs ++ [PageBreakElement (-1)])).
Proof.
  intros Hs Hrs Hn Hr Hp. split.
  - intros s' Hbody Hgrow.
    destruct (blocked (completed_elements s) (store s) (store s r)) eqn:Hb.
    + rewrite (body_blocked h ctx pdf s sorted r Hs Hr Hb) in Hbody.
      by simplify_eq/=.
    + by apply (blocked_false_inv _ _ (store s r)).
  - intros Hinc.
    pose proof (blocked_true_intro (completed_elements s) (store s) _ p Hp Hinc) as Hb.
    assert (Hlen : (i s < length sorted)%nat) by (by eapply lookup_lt_Some).
    unfold resume.
    rewrite (while_loop_turn fuel h ctx pdf s sorted Hs Hn Hlen).
    rewrite (body_blocked h ctx pdf s sorted r Hs Hr Hb).
    rewrite while_loop_stops by done.
    rewrite (finish_pass_pending _ sorted rs); simpl; auto.
    + eauto.
    + intros ->. simpl in Hlen. lia.
Qed.

(** C2. An element whose predecessor completed on the current page is
    placed at the predecessor's rendered bottom plus the designed gap
    (its own top minus the predecessor's nominal bottom): this is the
    offset with which the element is asked for its fragment or, when it
    is not printed, finished empty.  With a predecessor of nominal
    bottom 100 that rendered down to 140, an element of top 120 is
    placed at 160. *)
Theorem chained_offset h ctx pdf s s' sorted rs r p :
  sorted_elements (self s) = Some sorted ->
  render_elements (self s) = Some rs ->
  sorted !! i s = Some r ->
  predecessor (store s r) = Some p ->
  body h ctx pdf s = Ok (Next s') ->
  new_page s' = false ->
  let offset_y :=
    render_bottom (store s p) + (y (store s r) - bottom (store s p)) in
  placement_offset (self s) (store s) (store s r) = offset_y /\
  store s' r =
    (if is_printed ctx (store s r)
     then (get_next_render_element (store s r) offset_y h ctx pdf).2
     else finish_empty_element offset_y (store s r)) /\
  (bottom (store s p) = 100 -> y (store s r) = 120 ->
   render_bottom (store s p) = 140 -> offset_y = 160).
Proof.
  intros Hs Hrs Hr Hp Hbody Hnp offset_y.
  assert (Hoff : placement_offset (self s) (store s) (store s r) = offset_y).
  { unfold placement_offset. by rewrite Hp. }
  split; [done|]. split; [|subst offset_y; lia].
  destruct (blocked (completed_elements s) (store s) (store s r)) eqn:Hb.
  { rewrite (body_blocked h ctx pdf s sorted r Hs Hr Hb) in Hbody. by simplify_eq/=. }
  destruct (is_page_break (store s r)) eqn:Hpb.
  { unfold body in Hbody. rewrite Hs, Hr, Hb, Hpb in Hbody.
    destruct (allow_page_break (self s)); by simplify_eq/=. }
  destruct (is_printed ctx (store s r)) eqn:Hpr.
  - destruct (Z.le_gt_cases h (placement_offset (self s) (store s) (store s r)))
      as [Hge|Hlt].
    { rewrite (body_overflow h ctx pdf s sorted r Hs Hr Hb Hpb Hpr Hge) in Hbody.
      by simplify_eq/=. }
    rewrite (body_rendered h ctx pdf s sorted rs r Hs Hrs Hr Hb Hpb Hpr Hlt) in Hbody.
    rewrite Hoff in Hbody.
    destruct (get_next_render_element _ _ _ _ _) as [[f complete] elem'].
    simplify_eq. unfold consume.
    destruct complete; cbn [store snd]; apply fn_lookup_insert.
  - rewrite (body_suppressed h ctx pdf s sorted r Hs Hr Hb Hpb Hpr) in Hbody.
    rewrite Hoff in Hbody. simplify_eq. cbn [consume store].
    apply fn_lookup_alter.
Qed.

(** C3. In a container that does not allow page breaks, the turn that
    handles a page break (one that the test of line 69 lets through)
    returns from the method at once: the answer is [True], the queue of
    pending elements is empty, and [render_elements] is as it was before
    the turn, so neither the page break nor any element behind it gets
    a fragment. *)
Theorem page_break_in_fixed_band fuel h ctx pdf s sorted r :
  allow_page_break (self s) = false ->
  sorted_elements (self s) = Some sorted ->
  new_page s = false ->
  sorted !! i s = Some r ->
  is_page_break (store s r) = true ->
  blocked (completed_elements s) (store s) (store s r) = false ->
  exists c',
    resume (S fuel) h ctx pdf s = Ok (true, c', store s) /\
    sorted_elements c' = Some [] /\
    render_elements c' = render_elements (self s).
Proof.
  intros Ha Hs Hn Hr Hpb Hb.
  assert (Hlen : (i s < length sorted)%nat) by (by eapply lookup_lt_Some).
  exists (with_sorted_elements [] (self s)). split; [|done].
  unfold resume. rewrite (while_loop_turn fuel h ctx pdf s sorted Hs Hn Hlen).
  unfold body. by rewrite Hs, Hr, Hb, Hpb, Ha.
Qed.

(** C6 (amended). For a printed element the turn ends the page, leaving
    the element in the queue and unasked, exactly when its offset is
    greater than or equal to the available height; when the offset is
    smaller, the element is asked for a fragment with that offset and
    the page goes on. *)
Theorem overflow_ends_page h ctx pdf s sorted rs r :
  sorted_elements (self s) = Some sorted ->
  render_elements (self s) = Some rs ->
  sorted !! i s = Some r ->
  blocked (completed_elements s) (store s) (store s r) = false ->
  is_page_break (store s r) = false ->
  is_printed ctx (store s r) = true ->
  let offset_y := placement_offset (self s) (store s) (store s r) in
  exists s',
    body h ctx pdf s = Ok (Next s') /\
    (new_page s' = true <-> h <= offset_y) /\
    (h <= offset_y -> self s' = self s /\ store s' = store s) /\
    (offset_y < h ->
     store s' =
       <[r := (get_next_render_element (store s r) offset_y h ctx pdf).2]> (store s)).
Proof.
  intros Hs Hrs Hr Hb Hpb Hpr offset_y.
  destruct (Z.le_gt_cases h offset_y) as [Hge|Hlt].
  - rewrite (body_overflow h ctx pdf s sorted r Hs Hr Hb Hpb Hpr Hge).
    eexists; split; [done|]. simpl. repeat split; auto; lia.
  - rewrite (body_rendered h ctx pdf s sorted rs r Hs Hrs Hr Hb Hpb Hpr Hlt).
    fold offset_y.
    destruct (get_next_render_element _ _ _ _ _) as [[f complete] elem'].
    eexists; split; [done|].
    destruct complete; simpl; (split; [split; [done|lia]|split; [lia|done]]).
Qed.

(** C7. An element that is not printed is taken out of the queue in its
    turn whatever the available height: it is finished empty at its
    offset (complete, rendered bottom equal to the offset), entered in
    [completed_elements], and [render_elements] stays as it was. *)
Theorem suppressed_element h ctx pdf s sorted r :
  sorted_elements (self s) = Some sorted ->
  sorted !! i s = Some r ->
  blocked (completed_elements s) (store s) (store s r) = false ->
  is_page_break (store s r) = false ->
  is_printed ctx (store s r) = false ->
  let offset_y := placement_offset (self s) (store s) (store s r) in
  exists s',
    body h ctx pdf s = Ok (Next s') /\
    sorted_elements (self s') = Some (delete (i s) sorted) /\
    render_elements (self s') = render_elements (self s) /\
    store s' r = finish_empty_element offset_y (store s r) /\
    rendering_complete (store s' r) = true /\
    render_bottom (store s' r) = offset_y /\
    completed_elements s' !! id (store s r) = Some true /\
    new_page s' = false /\
    i s' = i s.
Proof.
  intros Hs Hr Hb Hpb Hpr offset_y.
  rewrite (body_suppressed h ctx pdf s sorted r Hs Hr Hb Hpb Hpr).
  eexists; split; [done|]. cbn [consume self store new_page i completed_elements].
  rewrite store_alter_eq. repeat split; auto.
  cbn [finish_empty_element id]. apply lookup_insert_eq.
Qed.

(** *** The whole pass *)

Local Ltac turn_done := split; [reflexivity|]; simpl; repeat split; auto.

(** What a turn does to the queues: it either goes on with a shorter
    distance to the end of the queue (or with [new_page] raised) and
    with nothing but fragments added to [render_elements], or it
    returns [True] from an emptied queue. *)
Lemma body_turn h ctx pdf s sorted rs :
  sorted_elements (self s) = Some sorted ->
  render_elements (self s) = Some rs ->
  (i s < length sorted)%nat ->
  (exists s' sorted' frs,
     body h ctx pdf s = Ok (Next s') /\
     sorted_elements (self s') = Some sorted' /\
     render_elements (self s') = Some (rs ++ frs) /\
     Forall (fun re => is_page_break_render re = false) frs /\
     (new_page s' = true \/ (length sorted' - i s' < length sorted - i s)%nat)) \/
  (exists c' st',
     body h ctx pdf s = Ok (Return true c' st') /\
     sorted_elements c' = Some [] /\
     render_elements c' = Some rs).
Proof.
  intros Hs Hrs Hi.
  destruct (lookup_lt_is_Some_2 sorted (i s) Hi) as [r Hr].
  assert (Hdel : (length (delete (i s) sorted) - i s < length sorted - i s)%nat).
  { rewrite length_delete by eauto. lia. }
  destruct (blocked (completed_elements s) (store s) (store s r)) eqn:Hb.
  { left. rewrite (body_blocked h ctx pdf s sorted r Hs Hr Hb).
    eexists. exists sorted, []. rewrite app_nil_r. turn_done. }
  destruct (is_page_break (store s r)) eqn:Hpb.
  { unfold body. rewrite Hs, Hr, Hb, Hpb.
    destruct (allow_page_break (self s)).
    - left. eexists. exists (delete (i s) sorted), []. rewrite app_nil_r. turn_done.
    - right. do 2 eexists. split; [done|]. simpl. auto. }
  destruct (is_printed ctx (store s r)) eqn:Hpr.
  - destruct (Z.le_gt_cases h (placement_offset (self s) (store s) (store s r)))
      as [Hge|Hlt].
    { left. rewrite (body_overflow h ctx pdf s sorted r Hs Hr Hb Hpb Hpr Hge).
      eexists. exists sorted, []. rewrite app_nil_r. turn_done. }
    left. rewrite (body_rendered h ctx pdf s sorted rs r Hs Hrs Hr Hb Hpb Hpr Hlt).
    destruct (get_next_render_element _ _ _ _ _) as [[[f|] [|]] elem']; simpl.
    + eexists. exists (delete (i s) sorted), [Fragment r f]. turn_done.
    + eexists. exists sorted, [Fragment r f]. turn_done. right. lia.
    + eexists. exists (delete (i s) sorted), []. rewrite app_nil_r. turn_done.
    + eexists. exists sorted, []. rewrite app_nil_r. turn_done. right. lia.
  - left. rewrite (body_suppressed h ctx pdf s sorted r Hs Hr Hb Hpb Hpr).
    eexists. exists (delete (i s) sorted), []. rewrite app_nil_r. turn_done.
Qed.

(** The loop ends within as many turns as there are elements between
    [i] and the end of the queue; it leaves by its test or by the
    [return] of line 84, and adds only fragments to [render_elements]. *)
Lemma while_loop_shape fuel h ctx pdf : forall s sorted rs,
  sorted_elements (self s) = Some sorted ->
  render_elements (self s) = Some rs ->
  (length sorted - i s <= fuel)%nat ->
  exists frs,
    Forall (fun re => is_page_break_render re = false) frs /\
    ((exists s' sorted',
        while_loop fuel h ctx pdf s = Ok (Next s') /\
        sorted_elements (self s') = Some sorted' /\
        render_elements (self s') = Some (rs ++ frs)) \/
     (exists c' st',
        while_loop fuel h ctx pdf s = Ok (Return true c' st') /\
        sorted_elements c' = Some [] /\
        render_elements c' = Some (rs ++ frs))).
Proof.
  induction fuel as [|fuel IH]; intros s sorted rs Hs Hrs Hfuel.
  - exists []. split; [constructor|]. left. exists s, sorted.
    rewrite app_nil_r. split; [|done]. simpl. unfold loop_test.
    rewrite Hs. destruct (new_page s); [done|].
    by destruct (Nat.ltb_spec (i s) (length sorted)); [lia|].
  - destruct (new_page s) eqn:Hn.
    { exists []. split; [constructor|]. left. exists s, sorted.
      rewrite app_nil_r. by rewrite while_loop_stops. }
    destruct (Nat.lt_ge_cases (i s) (length sorted)) as [Hi|Hi].
    + rewrite (while_loop_turn fuel h ctx pdf s sorted Hs Hn Hi).
      destruct (body_turn h ctx pdf s sorted rs Hs Hrs Hi)
        as [(s' & sorted' & frs & -> & Hs' & Hrs' & Hfr & Hm)
           |(c' & st' & -> & Hs' & Hrs')].
      * destruct Hm as [Hnp|Hm].
        { exists frs. split; [done|]. left. exists s', sorted'.
          by rewrite while_loop_stops. }
        destruct (IH s' sorted' (rs ++ frs) Hs' Hrs') as (frs' & Hfr' & Hres); [lia|].
        exists (frs ++ frs'). split; [by apply Forall_app|].
        rewrite (assoc_L (++)). done.
      * exists []. split; [constructor|]. right. exists c', st'.
        by rewrite app_nil_r.
    + exists []. split; [constructor|]. left. exists s, sorted.
      rewrite app_nil_r. split; [|done]. simpl. unfold loop_test.
      rewrite Hn, Hs. by destruct (Nat.ltb_spec (i s) (length sorted)); [lia|].
Qed.

(** C8. A call in document mode that starts with an empty
    [render_elements] ends with an answer, and leaves in
    [render_elements] some fragments (possibly none) followed by one
    page break with [y = -1] when elements are still pending, and
    fragments alone when the container is drained; the answer says
    whether the queue of pending elements is empty. *)
Theorem page_queue_shape h ctx pdf c st sorted :
  sorted_elements c = Some sorted ->
  render_elements c = Some [] ->
  exists drained c' st' pending frs,
    create_render_elements h ctx pdf c st = Ok (drained, c', st') /\
    sorted_elements c' = Some pending /\
    drained = bool_decide (pending = []) /\
    Forall (fun re => is_page_break_render re = false) frs /\
    render_elements c' =
      Some (frs ++ if drained then [] else [PageBreakElement (-1)]).
Proof.
  intros Hs Hrs.
  destruct (while_loop_shape (loop_fuel c) h ctx pdf (initial_state c st) sorted []
              Hs Hrs) as (frs & Hfr & Hres).
  { unfold loop_fuel. rewrite Hs. simpl. lia. }
  unfold create_render_elements, resume.
  destruct Hres as [(s' & sorted' & -> & Hs' & Hrs')|(c' & st' & -> & Hs' & Hrs')].
  - destruct sorted' as [|r sorted'].
    + rewrite (finish_pass_drained s' Hs').
      do 3 eexists. exists [], frs. split; [done|]. simpl.
      by rewrite app_nil_r.
    + rewrite (finish_pass_pending s' (r :: sorted') frs Hs' Hrs') by done.
      do 3 eexists. exists (r :: sorted'), frs. split; [done|]. simpl. auto.
  - exists true, c', st', [], frs. rewrite app_nil_r. auto.
Qed.

(** *** The list of added elements *)

Lemma body_doc_elements h ctx pdf s :
  match body h ctx pdf s with
  | Ok (Next s') =>
      doc_elements (self s') = doc_elements (self s) /\
      allow_page_break (self s') = allow_page_break (self s)
  | Ok (Return _ c' _) =>
      doc_elements c' = doc_elements (self s) /\
      allow_page_break c' = allow_page_break (self s)
  | _ => True
  end.
Proof.
  unfold body, consume.
  repeat (case_match; simplify_eq/=; try done).
Qed.

Lemma while_loop_doc_elements fuel h ctx pdf : forall s,
  match while_loop fuel h ctx pdf s with
  | Ok (Next s') =>
      doc_elements (self s') = doc_elements (self s) /\
      allow_page_break (self s') = allow_page_break (self s)
  | Ok (Return _ c' _) =>
      doc_elements c' = doc_elements (self s) /\
      allow_page_break c' = allow_page_break (self s)
  | _ => True
  end.
Proof.
  induction fuel as [|fuel IH]; intros s; simpl.
  - destruct (loop_test s) as [[|]| |]; done.
  - destruct (loop_test s) as [[|]| |]; try done.
    pose proof (body_doc_elements h ctx pdf s) as Hb.
    destruct (body h ctx pdf s) as [[s'|b c' st']| |]; try done.
    destruct Hb as [Hd Ha]. specialize (IH s').
    destruct (while_loop fuel h ctx pdf s') as [[s''|b c' st']| |]; try done;
      destruct IH as [Hd' Ha']; split; congruence.
Qed.

Lemma finish_pass_doc_elements s :
  match finish_pass s with
  | Ok (_, c', _) =>
      doc_elements c' = doc_elements (self s) /\
      allow_page_break c' = allow_page_break (self s)
  | _ => True
  end.
Proof. unfold finish_pass. repeat (case_match; simplify_eq/=; try done). Qed.

Lemma create_render_elements_doc_elements h ctx pdf c st :
  match create_render_elements h ctx pdf c st with
  | Ok (_, c', _) =>
      doc_elements c' = doc_elements c /\ allow_page_break c' = allow_page_break c
  | _ => True
  end.
Proof.
  unfold create_render_elements, resume.
  pose proof (while_loop_doc_elements (loop_fuel c) h ctx pdf (initial_state c st)) as Hw.
  destruct (while_loop _ _ _ _ _) as [[s'|b c' st']| |]; try done.
  pose proof (finish_pass_doc_elements s') as Hf.
  destruct (finish_pass s') as [[[b c'] st']| |]; try done.
  simpl in Hw. destruct Hw, Hf. split; congruence.
Qed.

(** [prepare] reads the container through [doc_elements] and
    [allow_page_break] only. *)
Lemma prepare_reads ctx pdf only_verify c1 c2 st :
  doc_elements c1 = doc_elements c2 ->
  allow_page_break c1 = allow_page_break c2 ->
  sorted_elements (prepare ctx pdf only_verify c1 st).1 =
    sorted_elements (prepare ctx pdf only_verify c2 st).1 /\
  (prepare ctx pdf only_verify c1 st).2 = (prepare ctx pdf only_verify c2 st).2.
Proof.
  intros Hd Ha. unfold prepare, prepare_loop. rewrite Hd, Ha.
  destruct (fold_left _ _ _) as [collected st1].
  by destruct (bool_decide (is_Some pdf)).
Qed.

Lemma insert_sorted_Permutation key a l : insert_sorted key a l ≡ₚ a :: l.
Proof.
  induction l as [|b l IH]; simpl; [done|].
  destruct (key_le (key a) (key b)); [done|].
  rewrite IH. apply Permutation_swap.
Qed.

Lemma py_sorted_Permutation key l : py_sorted key l ≡ₚ l.
Proof.
  induction l as [|a l IH]; simpl; [done|].
  rewrite insert_sorted_Permutation. by rewrite IH.
Qed.

Lemma key_le_total k1 k2 : key_le k1 k2 = false -> key_le k2 k1 = true.
Proof.
  unfold key_le. destruct k1 as [a1 b1], k2 as [a2 b2]. simpl.
  destruct (Z.ltb_spec a1 a2), (Z.ltb_spec a2 a1), (Z.eqb_spec a1 a2),
    (Z.eqb_spec a2 a1), (Z.leb_spec b1 b2), (Z.leb_spec b2 b1);
    simpl; intros; try done; lia.
Qed.

Lemma key_le_trans k1 k2 k3 :
  key_le k1 k2 = true -> key_le k2 k3 = true -> key_le k1 k3 = true.
Proof.
  unfold key_le. destruct k1 as [a1 b1], k2 as [a2 b2], k3 as [a3 b3]. simpl.
  destruct (Z.ltb_spec a1 a2), (Z.ltb_spec a2 a3), (Z.ltb_spec a1 a3),
    (Z.eqb_spec a1 a2), (Z.eqb_spec a2 a3), (Z.eqb_spec a1 a3),
    (Z.leb_spec b1 b2), (Z.leb_spec b2 b3), (Z.leb_spec b1 b3);
    simpl; intros; try done; lia.
Qed.

(** The queue that [sorted] hands back is in the order of the key. *)
Lemma py_sorted_StronglySorted key l :
  StronglySorted (fun a b => key_le (key a) (key b) = true) (py_sorted key l).
Proof.
  induction l as [|a l IH]; simpl; [constructor|].
  revert IH. generalize (py_sorted key l). clear l.
  induction l as [|b l IHl]; intros Hs; simpl.
  - repeat constructor.
  - apply StronglySorted_inv in Hs as [Hs Hb].
    destruct (key_le (key a) (key b)) eqn:Hab.
    + constructor; [by constructor|]. constructor; [done|].
      eapply Forall_impl; [exact Hb|]. simpl. intros c Hc.
      by eapply key_le_trans.
    + constructor; [by apply IHl|].
      rewrite insert_sorted_Permutation. constructor; [|done].
      by apply key_le_total.
Qed.

(** With a pdf document every added element is collected. *)
Lemma prepare_collects_all allow ctx d only_verify l : forall acc st,
  (fold_left (prepare_element elem_prepare allow ctx (Some d) only_verify) l (acc, st)).1
  = acc ++ l.
Proof.
  induction l as [|r l IH]; intros acc st; simpl.
  - by rewrite app_nil_r.
  - rewrite IH. by rewrite <- (assoc_L (++)).
Qed.

(** C10. [prepare], [create_render_elements] and [render_pdf] leave
    [doc_elements] as it is ([render_spreadsheet] hands back no
    container at all: it assigns no attribute).  After a call of
    [create_render_elements] has deleted elements from the queue, a new
    [prepare] builds the same queue as it would for the container
    before that call, and with a pdf document this queue holds exactly
    the added elements. *)
Theorem doc_elements_untouched h ctx pdf only_verify c st :
  doc_elements (prepare ctx pdf only_verify c st).1 = doc_elements c /\
  match create_render_elements h ctx pdf c st with
  | Ok (_, c', st') =>
      doc_elements c' = doc_elements c /\
      sorted_elements (prepare ctx pdf only_verify c' st').1 =
        sorted_elements (prepare ctx pdf only_verify c st').1 /\
      forall d, exists queue,
        sorted_elements (prepare ctx (Some d) only_verify c' st').1 = Some queue /\
        queue ≡ₚ doc_elements c
  | _ => True
  end /\
  match render_pdf c with
  | Ok (_, c') => doc_elements c' = doc_elements c
  | _ => True
  end.
Proof.
  split; [|split].
  - unfold prepare. destruct (prepare_loop _ _ _ _ _) as [collected st1].
    by destruct (bool_decide (is_Some pdf)).
  - pose proof (create_render_elements_doc_elements h ctx pdf c st) as Hc.
    destruct (create_render_elements h ctx pdf c st) as [[[b c'] st']| |]; try done.
    destruct Hc as [Hd Ha]. split; [done|]. split.
    + by apply prepare_reads.
    + intros d. unfold prepare, prepare_loop.
      pose proof (prepare_collects_all (allow_page_break c') ctx d only_verify
                    (doc_elements c') [] st') as Hcol.
      destruct (fold_left _ _ _) as [collected st1]. simpl in Hcol. subst collected.
      rewrite bool_decide_eq_true_2 by eauto. simpl.
      eexists. split; [done|]. rewrite py_sorted_Permutation. by rewrite Hd.
  - unfold render_pdf. destruct (render_elements c) as [rs|]; [|done].
    by destruct (render_pdf_loop rs 0 []).
Qed.

(** *** The choice of predecessors in [prepare] *)

(** The positions and the kind of the elements, which the choice of
    predecessors reads and never writes. *)
Local Abbreviation same_geometry st st' :=
  (forall r : ref,
     y (st' r) = y (st r) /\ bottom (st' r) = bottom (st r) /\
     is_page_break (st' r) = is_page_break (st r)).

(** The scan leaves the candidate it started with when nothing above
    beats it, and otherwise the element with the greatest bottom among
    those that end at or above the top of [elem]; among several of the
    same bottom it leaves the one looked at first, the last in sorted
    order. *)
Lemma scan_down_spec st sorted elem : forall n acc,
  (n <= length sorted)%nat ->
  (scan_down st sorted elem n acc = acc /\
   forall k q, (k < n)%nat -> sorted !! k = Some q ->
     bottom (st q) <= y (st elem) ->
     exists a, acc = Some a /\ bottom (st q) <= bottom (st a)) \/
  (exists jp p,
     (jp < n)%nat /\ sorted !! jp = Some p /\
     scan_down st sorted elem n acc = Some p /\
     bottom (st p) <= y (st elem) /\
     (forall a, acc = Some a -> bottom (st a) < bottom (st p)) /\
     forall k q, (k < n)%nat -> sorted !! k = Some q ->
       bottom (st q) <= y (st elem) ->
       bottom (st q) <= bottom (st p) /\
       (bottom (st q) = bottom (st p) -> (k <= jp)%nat)).
Proof.
  induction n as [|j IH]; intros acc Hn; simpl.
  { left. split; [done|]. intros; lia. }
  destruct (lookup_lt_is_Some_2 sorted j) as [c Hc]; [lia|]. rewrite Hc.
  assert (Hlast : forall k q, (k < S j)%nat -> sorted !! k = Some q ->
            (k < j)%nat \/ (k = j /\ q = c)).
  { intros k q Hk Hq. destruct (decide (k = j)) as [->|]; [|lia].
    right. split; [done|]. congruence. }
  destruct (IH (scan_step st elem acc c))
    as [[Hres Hall]|(jp & p & Hjp & Hp & Hres & Helig & Hbeat & Hall)];
    [lia| |]; rewrite Hres; unfold scan_step in *.
  - destruct (Z.leb_spec (bottom (st c)) (y (st elem))) as [Hle|Hgt]; simpl in *.
    + assert (Hlow : forall k q, (k < j)%nat -> sorted !! k = Some q ->
                bottom (st q) <= y (st elem) ->
                (if match acc with
                    | Some p0 => bottom (st p0) <? bottom (st c)
                    | None => true
                    end then bottom (st q) <= bottom (st c) else
                 exists a, acc = Some a /\ bottom (st q) <= bottom (st a))).
      { intros k q Hk Hq Hel. destruct (Hall k q Hk Hq Hel) as (a' & Ha' & Hb).
        destruct (match acc with Some p0 => _ | None => true end);
          [by simplify_eq|eauto]. }
      destruct (match acc with Some p0 => _ | None => true end) eqn:Htake.
      * right. exists j, c. split; [lia|]. split; [done|]. split; [done|].
        split; [done|]. split.
        { intros a ->. by apply Z.ltb_lt. }
        intros k q Hk Hq Hel. destruct (Hlast k q Hk Hq) as [Hlt|[-> ->]].
        -- split; [by eapply Hlow|lia].
        -- split; [lia|done].
      * left. split; [done|]. intros k q Hk Hq Hel.
        destruct (Hlast k q Hk Hq) as [Hlt|[-> ->]]; [by eapply Hlow|].
        destruct acc as [a|]; [|done]. exists a. split; [done|].
        by apply Z.ltb_ge.
    + left. split; [done|]. intros k q Hk Hq Hel.
      destruct (Hlast k q Hk Hq) as [Hlt|[-> ->]]; [by eapply Hall|lia].
  - right. exists jp, p. split; [lia|]. split; [done|]. split; [done|].
    split; [done|].
    assert (Hc_le : bottom (st c) <= y (st elem) -> bottom (st c) < bottom (st p)
                    \/ exists a, acc = Some a /\ bottom (st c) <= bottom (st a)).
    { intros Hle. destruct (Z.leb_spec (bottom (st c)) (y (st elem))); [|lia].
      simpl in Hbeat. destruct acc as [a|].
      - destruct (Z.ltb_spec (bottom (st a)) (bottom (st c))); eauto.
      - left. by apply Hbeat. }
    assert (Hacc : forall a, acc = Some a -> bottom (st a) < bottom (st p)).
    { intros a ->.
      destruct (Z.leb_spec (bottom (st c)) (y (st elem))); simpl in Hbeat.
      - destruct (Z.ltb_spec (bottom (st a)) (bottom (st c))).
        + pose proof (Hbeat c eq_refl). lia.
        + by apply Hbeat.
      - by apply Hbeat. }
    split; [done|]. intros k q Hk Hq Hel.
    destruct (Hlast k q Hk Hq) as [Hlt|[-> ->]]; [by eapply Hall|].
    destruct (Hc_le Hel) as [?|(a & Ha & ?)]; [lia|].
    pose proof (Hacc a Ha). lia.
Qed.

Lemma scan_down_ext st st' sorted elem : forall n acc,
  same_geometry st st' ->
  scan_down st' sorted elem n acc = scan_down st sorted elem n acc.
Proof.
  induction n as [|j IH]; intros acc Hg; simpl; [done|].
  destruct (sorted !! j) as [c|]; [|done].
  rewrite IH by done. f_equal. unfold scan_step.
  destruct (Hg c) as (_ & -> & _), (Hg elem) as (-> & _ & _).
  destruct acc as [a|]; [|done]. by destruct (Hg a) as (_ & -> & _).
Qed.

Lemma set_predecessor_geometry elem p st : same_geometry st (set_predecessor elem p st).
Proof.
  intros r. unfold set_predecessor.
  destruct (decide (p = r)) as [->|];
    [rewrite store_alter_eq|rewrite store_alter_ne by done];
    (destruct (decide (elem = r)) as [->|];
      [rewrite store_alter_eq|rewrite store_alter_ne by done]); done.
Qed.

Lemma set_predecessor_self elem p st :
  predecessor (set_predecessor elem p st elem) = Some p.
Proof.
  unfold set_predecessor.
  destruct (decide (p = elem)) as [->|];
    [rewrite store_alter_eq|rewrite store_alter_ne by done];
    by rewrite store_alter_eq.
Qed.

Lemma set_predecessor_other elem p st r :
  r <> elem -> predecessor (set_predecessor elem p st r) = predecessor (st r).
Proof.
  intros Hne. unfold set_predecessor.
  destruct (decide (p = r)) as [->|];
    [rewrite store_alter_eq|rewrite store_alter_ne by done];
    by rewrite store_alter_ne.
Qed.

Lemma assign_predecessor_geometry sorted i elem st :
  same_geometry st (assign_predecessor sorted i elem st).
Proof.
  unfold assign_predecessor. destruct (find_predecessor st sorted i elem) as [p|]; [|done].
  destruct (is_page_break (st p)); [done|]. apply set_predecessor_geometry.
Qed.

Lemma assign_predecessor_other sorted i elem st r :
  r <> elem ->
  predecessor (assign_predecessor sorted i elem st r) = predecessor (st r).
Proof.
  intros Hne. unfold assign_predecessor.
  destruct (find_predecessor st sorted i elem) as [p|]; [|done].
  destruct (is_page_break (st p)); [done|]. by apply set_predecessor_other.
Qed.

(** Lines 49-50 for the element itself. *)
Lemma assign_predecessor_self sorted i elem st :
  predecessor (assign_predecessor sorted i elem st elem) =
    match find_predecessor st sorted i elem with
    | Some p => if is_page_break (st p) then predecessor (st elem) else Some p
    | None => predecessor (st elem)
    end.
Proof.
  unfold assign_predecessor.
  destruct (find_predecessor st sorted i elem) as [p|]; [|done].
  destruct (is_page_break (st p)); [done|]. apply set_predecessor_self.
Qed.

(** The predecessor of an element of the queue is decided in its own
    turn, from the positions alone. *)
Lemma assign_predecessors_spec sorted st0 : forall rest i st,
  NoDup rest ->
  same_geometry st0 st ->
  same_geometry st0 (assign_predecessors sorted i rest st) /\
  (forall r, r ∉ rest ->
     predecessor (assign_predecessors sorted i rest st r) = predecessor (st r)) /\
  (forall k E, rest !! k = Some E ->
     predecessor (assign_predecessors sorted i rest st E) =
       match find_predecessor st0 sorted (i + k) E with
       | Some p => if is_page_break (st0 p) then predecessor (st E) else Some p
       | None => predecessor (st E)
       end).
Proof.
  induction rest as [|E0 rest IH]; intros i st Hnd Hg; simpl.
  { split; [done|]. split; [done|]. intros k E Hk. by rewrite lookup_nil in Hk. }
  apply NoDup_cons in Hnd as [Hnin Hnd].
  assert (Hg' : same_geometry st0 (assign_predecessor sorted i E0 st)).
  { intros r. destruct (assign_predecessor_geometry sorted i E0 st r) as (-> & -> & ->).
    apply Hg. }
  destruct (IH (S i) _ Hnd Hg') as (Hgeo & Hout & Hin).
  split; [done|]. split.
  - intros r Hr. apply not_elem_of_cons in Hr as [Hne Hr].
    rewrite Hout by done. by apply assign_predecessor_other.
  - intros [|k] E Hk; simpl in Hk.
    + simplify_eq. rewrite Hout by done. rewrite assign_predecessor_self.
      rewrite Nat.add_0_r. unfold find_predecessor.
      rewrite (scan_down_ext st0 st) by done.
      destruct (scan_down st0 sorted E i None) as [p|]; [|done].
      by destruct (Hg p) as (_ & _ & ->).
    + rewrite (Hin k E Hk). replace (S i + k)%nat with (i + S k)%nat by lia.
      assert (E <> E0).
      { intros ->. apply Hnin. by eapply list_elem_of_lookup_2. }
      by rewrite assign_predecessor_other.
Qed.

Lemma prepare_document ctx d only_verify c st :
  prepare ctx (Some d) only_verify c st =
    let st1 := (prepare_loop ctx (Some d) only_verify c st).2 in
    let sorted := py_sorted (fun r => (y (st1 r), sort_order (st1 r))) (doc_elements c) in
    (mkContainer (doc_elements c) (width c) (height c) (allow_page_break c)
       (container_offset_y c) (Some sorted) (Some []) (explicit_page_break c)
       (page_y c),
     assign_predecessors sorted 0 sorted st1).
Proof.
  unfold prepare.
  pose proof (prepare_collects_all (allow_page_break c) ctx d only_verify
                (doc_elements c) [] st) as Hcol.
  fold (prepare_loop ctx (Some d) only_verify c st) in Hcol.
  destruct (prepare_loop ctx (Some d) only_verify c st) as [collected st1].
  simpl in Hcol. subst collected. reflexivity.
Qed.

(** C4 (amended). After [prepare] with a pdf document, take an element
    [E] of the queue.  When no element sorted before [E] ends at or
    above the top of [E], the pass leaves the predecessor of [E] as it
    was.  Otherwise let [p] be the element with the greatest bottom
    among all elements sorted before [E] that end at or above its top,
    page breaks included, and among several of that bottom the last in
    sorted order: when [p] is not a page break it is the predecessor of
    [E]; when [p] is a page break the pass assigns no predecessor to
    [E], whatever other elements lie above.  So the pass never assigns a
    page break as a predecessor. *)
Theorem predecessor_selection ctx d only_verify c st sorted i E :
  NoDup (doc_elements c) ->
  sorted_elements (prepare ctx (Some d) only_verify c st).1 = Some sorted ->
  sorted !! i = Some E ->
  let st1 := (prepare_loop ctx (Some d) only_verify c st).2 in
  let st' := (prepare ctx (Some d) only_verify c st).2 in
  let above j q :=
    (j < i)%nat /\ sorted !! j = Some q /\ bottom (st' q) <= y (st' E) in
  ((forall j q, ~ above j q) -> predecessor (st' E) = predecessor (st1 E)) /\
  (forall j q, above j q ->
     exists jp p,
       above jp p /\
       (forall k q', above k q' ->
          bottom (st' q') <= bottom (st' p) /\
          (bottom (st' q') = bottom (st' p) -> (k <= jp)%nat)) /\
       predecessor (st' E) =
         (if is_page_break (st' p) then predecessor (st1 E) else Some p)) /\
  (forall p, predecessor (st' E) = Some p ->
     is_page_break (st' p) = false \/ predecessor (st1 E) = Some p).
Proof.
  intros Hnd Hsorted Hi st1 st' above. subst st' above.
  rewrite prepare_document in Hsorted |- *. fold st1 in Hsorted |- *.
  simpl in Hsorted |- *. simplify_eq.
  set (sorted := py_sorted (fun r => (y (st1 r), sort_order (st1 r))) (doc_elements c))
    in *.
  assert (Hnd' : NoDup sorted).
  { unfold sorted. by rewrite py_sorted_Permutation. }
  destruct (assign_predecessors_spec sorted st1 sorted 0 st1 Hnd')
    as (Hgeo & _ & Hin); [done|].
  specialize (Hin i E Hi). simpl in Hin.
  set (st' := assign_predecessors sorted 0 sorted st1) in *.
  assert (Hy : forall r, y (st' r) = y (st1 r)) by (intros r; apply Hgeo).
  assert (Hb : forall r, bottom (st' r) = bottom (st1 r)) by (intros r; apply Hgeo).
  assert (Hk : forall r, is_page_break (st' r) = is_page_break (st1 r))
    by (intros r; apply Hgeo).
  assert (Hlen : (i <= length sorted)%nat).
  { apply lookup_lt_Some in Hi. lia. }
  unfold find_predecessor in Hin.
  destruct (scan_down_spec st1 sorted E i None Hlen)
    as [[Hres Hall]|(jp & p & Hjp & Hp & Hres & Helig & _ & Hall)];
    rewrite Hres in Hin.
  - split; [done|]. split.
    + intros j q (Hj & Hq & Hel). rewrite Hb, Hy in Hel.
      destruct (Hall j q Hj Hq Hel) as (a & ? & _). done.
    + intros p Hp. right. congruence.
  - split; [|split].
    + intros Hnone. destruct (Hnone jp p). by rewrite Hb, Hy.
    + intros _ _ _. exists jp, p. split; [by rewrite Hb, Hy|]. split.
      * intros k q' (Hk' & Hq' & Hel'). rewrite !Hb. rewrite Hb, Hy in Hel'.
        by apply Hall.
      * by rewrite Hk.
    + intros p' Hp'. rewrite Hin in Hp'.
      destruct (is_page_break (st1 p)) eqn:Hpb; [by right|].
      left. simplify_eq. by rewrite Hk.
Qed.

(** *** The rows of a spreadsheet *)

Lemma collect_row_spec st elem : forall rest j acc,
  exists run rest',
    rest = run ++ rest' /\
    collect_row st elem rest j acc = ((j + length run)%nat, acc ++ run) /\
    Forall (fun r => y (st r) = y (st elem)) run /\
    (forall r, head rest' = Some r -> y (st r) <> y (st elem)).
Proof.
  induction rest as [|r rest IH]; intros j acc; simpl.
  - exists [], []. rewrite !app_nil_r, Nat.add_0_r.
    split; [done|]. split; [done|]. split; [constructor|done].
  - destruct (Z.eqb_spec (y (st r)) (y (st elem))) as [Heq|Hne].
    + destruct (IH (S j) (acc ++ [r])) as (run & rest' & -> & -> & Hrun & Hnext).
      exists (r :: run), rest'. simpl. rewrite <- (assoc_L (++)). simpl.
      repeat split; auto. f_equal. lia.
    + exists [], (r :: rest). rewrite !app_nil_r, Nat.add_0_r. simpl.
      repeat split; auto. by intros ? [= <-].
Qed.

Lemma render_row_spec st ctx current_row : forall run current_col row max_col emitted,
  exists ems,
    render_row elem_render_spreadsheet st ctx run current_row current_col row max_col
      emitted =
      (fold_left Z.max (map em_tmp_row ems) row,
       fold_left Z.max (map em_next_col ems) max_col,
       emitted ++ ems) /\
    map em_elem ems = run /\
    (forall em, head ems = Some em -> em_col em = current_col) /\
    Forall (fun em =>
              em_row em = current_row /\
              (em_tmp_row em, em_next_col em) =
                elem_render_spreadsheet (st (em_elem em)) (em_row em) (em_col em) ctx)
      ems.
Proof.
  induction run as [|r run IH]; intros current_col row max_col emitted; simpl.
  - exists []. by rewrite app_nil_r.
  - destruct (elem_render_spreadsheet (st r) current_row current_col ctx)
      as [tmp_row next_col] eqn:Hcall.
    destruct (IH next_col (Z.max row tmp_row)
                (if next_col >? max_col then next_col else max_col)
                (emitted ++ [mkEmission r current_row current_col tmp_row next_col]))
      as (ems & -> & Hel & _ & Hall).
    exists (mkEmission r current_row current_col tmp_row next_col :: ems). simpl.
    rewrite <- (assoc_L (++)). simpl. split; [|split; [|split]].
    + do 2 f_equal. f_equal. rewrite Z.gtb_ltb.
      destruct (Z.ltb_spec max_col next_col); lia.
    + by rewrite Hel.
    + by intros em [= <-].
    + constructor; [|done]. simpl. by rewrite Hcall.
Qed.

Lemma fold_left_max_is_max l : forall start, is_max start l (fold_left Z.max l start).
Proof.
  induction l as [|v l IH]; intros start; simpl.
  - split; [lia|]. split; [constructor|by left].
  - destruct (IH (Z.max start v)) as (Hle & Hall & Hatt).
    split; [lia|]. split; [constructor; [lia|done]|].
    destruct Hatt as [->|Hin].
    + destruct (Z.max_spec start v) as [[_ ->]|[_ ->]]; [right; left|by left].
    + right. by right.
Qed.

(** The loop writes the rest of the queue, from [i] on, as the rows
    [new] and reaches the greatest row and column reported. *)
Lemma spreadsheet_loop_spec st ctx sorted col : forall fuel i row max_col rows,
  (length sorted - i <= fuel)%nat ->
  exists new,
    spreadsheet_loop elem_render_spreadsheet fuel st ctx sorted (length sorted) col
      i row max_col rows =
      Ok (fold_left Z.max (map em_tmp_row (concat new)) row,
          fold_left Z.max (map em_next_col (concat new)) max_col,
          rows ++ new) /\
    concat (map (map em_elem) new) = drop i sorted /\
    maximal_runs st (map (map em_elem) new) /\
    (forall k run em,
       new !! k = Some run -> em ∈ run ->
       em_row em = fold_left Z.max (map em_tmp_row (concat (take k new))) row /\
       (em_tmp_row em, em_next_col em) =
         elem_render_spreadsheet (st (em_elem em)) (em_row em) (em_col em) ctx) /\
    (forall run em, run ∈ new -> head run = Some em -> em_col em = col).
Proof.
  induction fuel as [|fuel IH]; intros i row max_col rows Hfuel; simpl.
  { destruct (Nat.ltb_spec i (length sorted)); [lia|].
    exists []. rewrite app_nil_r, drop_ge by lia. simpl.
    split; [done|]. split; [done|]. split; [|split].
    - split; [constructor|]. intros k ? ? ? ? Hk. by rewrite lookup_nil in Hk.
    - intros k ? ? Hk. by rewrite lookup_nil in Hk.
    - intros ? ? Hin. by apply elem_of_nil in Hin. }
  destruct (Nat.ltb_spec i (length sorted)) as [Hi|Hi]; cycle 1.
  { exists []. rewrite app_nil_r, drop_ge by lia. simpl.
    split; [done|]. split; [done|]. split; [|split].
    - split; [constructor|]. intros k ? ? ? ? Hk. by rewrite lookup_nil in Hk.
    - intros k ? ? Hk. by rewrite lookup_nil in Hk.
    - intros ? ? Hin. by apply elem_of_nil in Hin. }
  destruct (lookup_lt_is_Some_2 sorted i Hi) as [elem Helem]. rewrite Helem.
  destruct (collect_row_spec st elem (drop (S i) sorted) (S i) [elem])
    as (run & rest' & Hsplit & -> & Hrun & Hnext).
  destruct (render_row_spec st ctx row ([elem] ++ run) col row max_col [])
    as (ems & -> & Hems & Hcol & Hcalls).
  assert (Hdrop : drop (S i + length run) sorted = rest').
  { rewrite <- drop_drop, Hsplit. by rewrite drop_app_length. }
  assert (Hlen : (S i + length run <= length sorted)%nat).
  { pose proof (f_equal length Hsplit) as Hl.
    rewrite length_drop, length_app in Hl. lia. }
  destruct (IH (S i + length run)%nat
              (fold_left Z.max (map em_tmp_row ems) row)
              (fold_left Z.max (map em_next_col ems) max_col)
              (rows ++ [[] ++ ems]))
    as (new & -> & Hconcat & [Hruns Hadj] & Hrows & Hcols); [lia|].
  exists (ems :: new). simpl.
  rewrite !map_app, !fold_left_app, <- (assoc_L (++)). simpl.
  split; [done|]. split; [|split; [split|split]].
  - rewrite Hconcat, Hdrop, Hems. simpl. rewrite <- Hsplit.
    symmetry. by apply drop_S.
  - constructor; [|done]. rewrite Hems. split; [done|].
    assert (Hall : Forall (fun r => y (st r) = y (st elem)) ([elem] ++ run)).
    { constructor; [done|]. done. }
    rewrite Forall_forall in Hall. intros a b Ha Hb.
    rewrite (Hall a), (Hall b); done.
  - intros [|k] run1 run2 a b Hk1 Hk2 Ha Hb; simpl in Hk1, Hk2.
    + injection Hk1 as <-. rewrite Hems in Ha.
      assert (Hya : y (st a) = y (st elem)).
      { apply elem_of_cons in Ha as [->|Ha]; [done|].
        rewrite Forall_forall in Hrun. by apply Hrun. }
      destruct (map (map em_elem) new) as [|first others] eqn:Hnew; [done|].
      injection Hk2 as ->.
      apply Forall_cons in Hruns as [[Hne Hsame] _].
      destruct run2 as [|b0 run2]; [done|].
      rewrite Hya, (Hsame b b0 Hb) by left.
      intros Heq. apply (Hnext b0); [|done].
      rewrite <- Hdrop, <- Hconcat. done.
    + exact (Hadj k run1 run2 a b Hk1 Hk2 Ha Hb).
  - intros [|k] run0 em Hk Hem; simpl in Hk.
    + simplify_eq. simpl. rewrite Forall_forall in Hcalls. by apply Hcalls.
    + destruct (Hrows k run0 em Hk Hem) as [-> Hcall]. split; [|done].
      simpl. by rewrite map_app, fold_left_app.
  - intros run0 em Hin Hhead. apply elem_of_cons in Hin as [->|Hin].
    + by apply Hcol.
    + by eapply Hcols.
Qed.

Lemma spreadsheet_two_rows row col ctx c st r0 r1 r2 r3 :
  sorted_elements c = Some [r0; r1; r2; r3] ->
  y (st r0) = 0 -> y (st r1) = 0 -> y (st r2) = 0 -> y (st r3) = 10 ->
  exists row' max_col' rows,
    render_spreadsheet row col ctx c st = Ok (row', max_col', rows) /\
    map (map em_elem) rows = [[r0; r1; r2]; [r3]].
Proof.
  intros Hs H0 H1 H2 H3. unfold render_spreadsheet. rewrite Hs. simpl.
  rewrite H0, H1, H2, H3. simpl.
  destruct (elem_render_spreadsheet (st r0) row col ctx) as [t0 c0].
  destruct (elem_render_spreadsheet (st r1) row c0 ctx) as [t1 c1].
  destruct (elem_render_spreadsheet (st r2) row c1 ctx) as [t2 c2].
  simpl.
  destruct (elem_render_spreadsheet (st r3) _ col ctx) as [t3 c3].
  simpl. by do 3 eexists.
Qed.

Lemma is_max_attained start reported m v :
  is_max start reported m -> v ∈ reported -> start <= v -> m ∈ reported.
Proof.
  intros (Hle & Hall & [->|Hin]) Hv Hsv; [|done].
  rewrite Forall_forall in Hall. pose proof (Hall v Hv).
  by replace start with v by lia.
Qed.

(** C9. [render_spreadsheet] cuts the queue into maximal runs of
    consecutive elements of one top and writes each run as one row:
    the rows written, read in order, are the queue; every element of a
    run is called with the same row index, the greatest row reached
    before the run, and every run starts in the column the method was
    given; the answer is the greatest row and the greatest column
    among the starting ones and those the elements reported, and when
    elements never report less than they were given it is the greatest
    row and column reported.  Three elements of top 0 followed by one
    of top 10 make two rows. *)
Theorem spreadsheet_rows row col ctx c st sorted :
  sorted_elements c = Some sorted ->
  exists row' max_col' rows,
    render_spreadsheet row col ctx c st = Ok (row', max_col', rows) /\
    concat (map (map em_elem) rows) = sorted /\
    maximal_runs st (map (map em_elem) rows) /\
    (forall k run em,
       rows !! k = Some run -> em ∈ run ->
       em_row em = fold_left Z.max (map em_tmp_row (concat (take k rows))) row /\
       (em_tmp_row em, em_next_col em) =
         elem_render_spreadsheet (st (em_elem em)) (em_row em) (em_col em) ctx) /\
    (forall run em, run ∈ rows -> head run = Some em -> em_col em = col) /\
    is_max row (map em_tmp_row (concat rows)) row' /\
    is_max col (map em_next_col (concat rows)) max_col' /\
    (sorted <> [] ->
     (forall em, em ∈ concat rows ->
        em_row em <= em_tmp_row em /\ em_col em <= em_next_col em) ->
     row' ∈ map em_tmp_row (concat rows) /\
     max_col' ∈ map em_next_col (concat rows)) /\
    (forall r0 r1 r2 r3,
       sorted = [r0; r1; r2; r3] ->
       y (st r0) = 0 -> y (st r1) = 0 -> y (st r2) = 0 -> y (st r3) = 10 ->
       map (map em_elem) rows = [[r0; r1; r2]; [r3]]).
Proof.
  intros Hs.
  destruct (spreadsheet_loop_spec st ctx sorted col (length sorted) 0 row col [])
    as (rows & Hrun & Hconcat & Hruns & Hrows & Hcols); [lia|].
  do 2 eexists. exists rows.
  assert (Hcall : render_spreadsheet row col ctx c st =
                  Ok (fold_left Z.max (map em_tmp_row (concat rows)) row,
                      fold_left Z.max (map em_next_col (concat rows)) col, rows)).
  { unfold render_spreadsheet. by rewrite Hs, Hrun. }
  split; [exact Hcall|]. split; [done|]. split; [done|]. split; [done|].
  split; [done|].
  split; [apply fold_left_max_is_max|]. split; [apply fold_left_max_is_max|].
  split.
  - intros Hne Hmono.
    destruct rows as [|run0 rows]; [done|].
    destruct Hruns as [Hruns _]. simpl in Hruns.
    apply Forall_cons in Hruns as [[Hrun0 _] _].
    destruct run0 as [|em0 run0]; [done|].
    assert (Hin : em0 ∈ concat ((em0 :: run0) :: rows)) by (simpl; left).
    destruct (Hmono em0 Hin) as [Hr Hc].
    destruct (Hrows 0%nat (em0 :: run0) em0 eq_refl) as [Hrow0 _]; [left|].
    simpl in Hrow0. rewrite Hrow0 in Hr.
    rewrite (Hcols (em0 :: run0) em0) in Hc by (done || left).
    split.
    + eapply is_max_attained; [apply fold_left_max_is_max| |exact Hr].
      simpl. left.
    + eapply is_max_attained; [apply fold_left_max_is_max| |exact Hc].
      simpl. left.
  - intros r0 r1 r2 r3 -> H0 H1 H2 H3.
    destruct (spreadsheet_two_rows row col ctx c st r0 r1 r2 r3 Hs H0 H1 H2 H3)
      as (row2 & col2 & rows2 & Hcall2 & Hrows2).
    rewrite Hcall in Hcall2. by simplify_eq.
Qed.

(** *** A container that was just made *)



(** The loop of the method runs through the states of [after_turns]. *)
Lemma while_loop_after_turns h ctx pdf n : forall fuel s s',
  after_turns n h ctx pdf s = Some s' ->
  while_loop (n + fuel) h ctx pdf s = while_loop fuel h ctx pdf s'.
Proof.
  induction n as [|n IH]; intros fuel s s' Hn; simpl in *; [by simplify_eq|].
  destruct (loop_test s) as [[|]| |]; try done.
  destruct (body h ctx pdf s) as [[s1|b c1 st1]| |]; try done.
  by apply IH.
Qed.




(** *** The queue during a call *)

Local Ltac queue_done :=
  eexists; split; [simpl; first [eassumption|reflexivity]|];
  split; [done || apply sublist_delete|];
  split; [(by left) || (right; simpl; lia)|]; simpl; done.

(** A turn never adds to the queue, and it either raises [new_page] or
    shortens the way to the end of the queue. *)
Lemma body_queue h ctx pdf s sorted :
  sorted_elements (self s) = Some sorted ->
  (i s < length sorted)%nat ->
  match body h ctx pdf s with
  | Ok (Next s') =>
      exists sorted',
        sorted_elements (self s') = Some sorted' /\
        sorted' `sublist_of` sorted /\
        (new_page s' = true \/ (length sorted' - i s' < length sorted - i s)%nat) /\
        (render_elements (self s) = None -> render_elements (self s') = None)
  | Ok (Return b c' st') =>
      b = true /\ sorted_elements c' = Some [] /\
      render_elements c' = render_elements (self s)
  | Raise => True
  | OutOfFuel => False
  end.
Proof.
  intros Hs Hi.
  destruct (lookup_lt_is_Some_2 sorted (i s) Hi) as [r Hr].
  assert (Hdel : (length (delete (i s) sorted) - i s < length sorted - i s)%nat).
  { rewrite length_delete by eauto. lia. }
  unfold body, consume. rewrite Hs, Hr.
  repeat case_match; simplify_eq/=; try done; queue_done.
Qed.

Lemma while_loop_queue fuel h ctx pdf : forall s sorted,
  sorted_elements (self s) = Some sorted ->
  (length sorted - i s <= fuel)%nat ->
  match while_loop fuel h ctx pdf s with
  | Ok (Next s') =>
      exists sorted',
        sorted_elements (self s') = Some sorted' /\
        sorted' `sublist_of` sorted /\
        (render_elements (self s) = None -> render_elements (self s') = None)
  | Ok (Return b c' st') =>
      b = true /\ sorted_elements c' = Some [] /\
      (render_elements (self s) = None -> render_elements c' = None)
  | Raise => True
  | OutOfFuel => False
  end.
Proof.
  induction fuel as [|fuel IH]; intros s sorted Hs Hfuel.
  - simpl. unfold loop_test. rewrite Hs. destruct (new_page s).
    + exists sorted. done.
    + destruct (Nat.ltb_spec (i s) (length sorted)); [lia|]. exists sorted. done.
  - destruct (new_page s) eqn:Hn.
    { rewrite while_loop_stops by done. exists sorted. done. }
    destruct (Nat.lt_ge_cases (i s) (length sorted)) as [Hi|Hi].
    + rewrite (while_loop_turn fuel h ctx pdf s sorted Hs Hn Hi).
      pose proof (body_queue h ctx pdf s sorted Hs Hi) as Hb.
      destruct (body h ctx pdf s) as [[s'|b c' st']| |]; try done.
      * destruct Hb as (sorted' & Hs' & Hsub & Hm & Hnone).
        destruct Hm as [Hnp|Hm].
        { rewrite while_loop_stops by done. exists sorted'. done. }
        specialize (IH s' sorted' Hs'). 
        destruct (while_loop fuel h ctx pdf s') as [[s''|b c' st']| |];
          try done; try (apply IH; lia).
        -- destruct IH as (sorted'' & Hs'' & Hsub' & Hnone'); [lia|].
           exists sorted''. split; [done|]. split; [by etrans|]. auto.
        -- destruct IH as (-> & Hs'' & Hnone'); [lia|]. auto.
      * destruct Hb as (-> & Hs' & Hrs'). split; [done|]. split; [done|].
        intros Hnone. by rewrite Hrs'.
    + simpl. unfold loop_test. rewrite Hn, Hs.
      destruct (Nat.ltb_spec (i s) (length sorted)); [lia|]. exists sorted. done.
Qed.

(** X5. [create_render_elements] always comes to an end: its loop
    makes at most one turn per pending element. *)
Theorem create_render_elements_ends h ctx pdf c st :
  create_render_elements h ctx pdf c st <> OutOfFuel.
Proof.
  unfold create_render_elements, resume, loop_fuel.
  destruct (sorted_elements c) as [sorted|] eqn:Hs.
  - pose proof (while_loop_queue (length sorted) h ctx pdf (initial_state c st) sorted
                  Hs) as Hw.
    destruct (while_loop _ _ _ _ _) as [[s'|b c' st']| |]; try done.
    + unfold finish_pass. repeat case_match; done.
    + intros _. apply Hw. simpl. lia.
  - simpl. unfold loop_test. simpl. by rewrite Hs.
Qed.

(** X6. A call only takes elements out of the queue: what is pending
    afterwards is what was pending before with some elements left out,
    in the same order, and the answer tells whether it is empty. *)
Theorem pending_only_shrinks h ctx pdf c st sorted :
  sorted_elements c = Some sorted ->
  match create_render_elements h ctx pdf c st with
  | Ok (drained, c', _) =>
      exists pending,
        sorted_elements c' = Some pending /\
        pending `sublist_of` sorted /\
        drained = bool_decide (pending = [])
  | _ => True
  end.
Proof.
  intros Hs. unfold create_render_elements, resume, loop_fuel. rewrite Hs.
  pose proof (while_loop_queue (length sorted) h ctx pdf (initial_state c st) sorted
                Hs) as Hw.
  destruct (while_loop _ _ _ _ _) as [[s'|b c' st']| |]; try done.
  - destruct Hw as (sorted' & Hs' & Hsub & _); [simpl; lia|].
    unfold finish_pass. simpl. rewrite Hs'.
    destruct sorted' as [|r sorted']; simpl.
    + exists []. by rewrite Hs'.
    + destruct (render_elements (self s')); [|done]. simpl.
      exists (r :: sorted'). by rewrite Hs'.
  - destruct Hw as (-> & Hs' & _); [simpl; lia|]. exists [].
    split; [done|]. split; [apply sublist_nil_l|done].
Qed.

(** X4. On a container whose [render_elements] is still [None] (it was
    never prepared for a pdf document) a call cannot open a page: it
    raises, unless it finds nothing to render and answers [True] with
    an empty queue. *)
Theorem no_page_without_render_queue h ctx pdf c st :
  render_elements c = None ->
  match create_render_elements h ctx pdf c st with
  | Ok (drained, c', _) =>
      drained = true /\ sorted_elements c' = Some [] /\ render_elements c' = None
  | Raise => True
  | OutOfFuel => False
  end.
Proof.
  intros Hrs. unfold create_render_elements, resume, loop_fuel.
  destruct (sorted_elements c) as [sorted|] eqn:Hs.
  - pose proof (while_loop_queue (length sorted) h ctx pdf (initial_state c st) sorted
                  Hs) as Hw.
    destruct (while_loop _ _ _ _ _) as [[s'|b c' st']| |]; try done.
    + destruct Hw as (sorted' & Hs' & _ & Hnone); [simpl; lia|].
      specialize (Hnone Hrs). unfold finish_pass. simpl. rewrite Hs'.
      destruct sorted' as [|r sorted']; simpl; [done|]. by rewrite Hnone.
    + destruct Hw as (-> & Hs' & Hnone); [simpl; lia|]. auto.
    + apply Hw. simpl. lia.
  - simpl. unfold loop_test. simpl. by rewrite Hs.
Qed.

(** X3. A call on an empty queue answers [True], adds nothing to
    [render_elements] and leaves the elements alone; it only writes
    [explicit_page_break].  So a drained container stays drained. *)
Theorem drained_stays_drained h ctx pdf c st :
  sorted_elements c = Some [] ->
  create_render_elements h ctx pdf c st =
    Ok (true,
        with_explicit_page_break (if allow_page_break c then false else true) c,
        st).
Proof.
  intros Hs. unfold create_render_elements, resume, loop_fuel. rewrite Hs. simpl.
  unfold loop_test. simpl. rewrite Hs. simpl.
  by rewrite (finish_pass_drained (initial_state c st)).
Qed.

(** X13. [completed_elements] is empty when a call starts, so a call
    whose first pending element still has a predecessor places
    nothing: it answers [False], appends only the page break, and
    leaves the queue and every element as they were.  The next call
    finds the same. *)
Theorem linked_head_stalls h ctx pdf c st r rest rs p :
  sorted_elements c = Some (r :: rest) ->
  render_elements c = Some rs ->
  predecessor (st r) = Some p ->
  exists c',
    create_render_elements h ctx pdf c st = Ok (false, c', st) /\
    sorted_elements c' = Some (r :: rest) /\
    render_elements c' = Some (rs ++ [PageBreakElement (-1)]) /\
    doc_elements c' = doc_elements c /\
    allow_page_break c' = allow_page_break c /\
    page_y c' = page_y c.
Proof.
  intros Hs Hrs Hp. unfold create_render_elements, resume, loop_fuel. rewrite Hs.
  simpl length.
  rewrite (while_loop_turn (length rest) h ctx pdf (initial_state c st) (r :: rest));
    [|done|done|simpl; lia].
  rewrite (body_blocked h ctx pdf (initial_state c st) (r :: rest) r); [|done|done|].
  - rewrite while_loop_stops by done.
    rewrite (finish_pass_pending _ (r :: rest) rs); [|done|done|done].
    eexists. split; [reflexivity|]. done.
  - simpl. apply (blocked_true_intro _ _ _ p Hp). left. apply lookup_empty.
Qed.

(** X7. Where page breaks are allowed, the turn that handles a page
    break takes it out of the queue and ends the page: the call
    records its top in [page_y], sets [explicit_page_break], renders
    nothing more, and appends the page break of the new page only if
    elements are left; a page break that was the last element leaves
    the container drained. *)
Theorem page_break_consumed fuel h ctx pdf s sorted rs r :
  allow_page_break (self s) = true ->
  sorted_elements (self s) = Some sorted ->
  render_elements (self s) = Some rs ->
  new_page s = false ->
  sorted !! i s = Some r ->
  is_page_break (store s r) = true ->
  blocked (completed_elements s) (store s) (store s r) = false ->
  exists drained c' st',
    resume (S fuel) h ctx pdf s = Ok (drained, c', st') /\
    sorted_elements c' = Some (delete (i s) sorted) /\
    drained = bool_decide (delete (i s) sorted = []) /\
    page_y c' = y (store s r) /\
    explicit_page_break c' = true /\
    render_elements c' =
      Some (rs ++ if drained then [] else [PageBreakElement (-1)]) /\
    (drained = true -> st' = store s).
Proof.
  intros Ha Hs Hrs Hn Hr Hpb Hb.
  assert (Hlen : (i s < length sorted)%nat) by (by eapply lookup_lt_Some).
  unfold resume. rewrite (while_loop_turn fuel h ctx pdf s sorted Hs Hn Hlen).
  unfold body. rewrite Hs, Hr, Hb, Hpb, Ha.
  rewrite while_loop_stops by done.
  destruct (delete (i s) sorted) as [|r' pending] eqn:Hdel.
  - rewrite finish_pass_drained by done.
    do 3 eexists. split; [reflexivity|]. simpl. rewrite Ha, Hrs.
    by rewrite app_nil_r.
  - rewrite (finish_pass_pending _ (r' :: pending) rs); [|done|done|done].
    do 3 eexists. split; [reflexivity|]. simpl. rewrite Ha. done.
Qed.

(** X15. In a band that does not allow page breaks, a printed first
    element whose top is at or below the available height is never
    placed: the call answers [False] with nothing but the page break,
    and after [render_pdf] has taken that page the container and the
    elements are exactly as before the call. *)
Theorem low_element_never_placed h ctx pdf c st r rest :
  allow_page_break c = false ->
  explicit_page_break c = true ->
  sorted_elements c = Some (r :: rest) ->
  render_elements c = Some [] ->
  predecessor (st r) = None ->
  is_page_break (st r) = false ->
  is_printed ctx (st r) = true ->
  h <= y (st r) ->
  exists c1,
    create_render_elements h ctx pdf c st = Ok (false, c1, st) /\
    render_elements c1 = Some [PageBreakElement (-1)] /\
    render_pdf c1 = Ok ([], c).
Proof.
  intros Ha He Hs Hrs Hp Hpb Hpr Hh.
  unfold create_render_elements, resume, loop_fuel. rewrite Hs. simpl length.
  rewrite (while_loop_turn (length rest) h ctx pdf (initial_state c st) (r :: rest));
    [|done|done|simpl; lia].
  assert (Hb : blocked (completed_elements (initial_state c st)) st (st r) = false).
  { unfold blocked. by rewrite Hp. }
  rewrite (body_overflow h ctx pdf (initial_state c st) (r :: rest) r);
    [|done|done|done|done|done|].
  - rewrite while_loop_stops by done.
    rewrite (finish_pass_pending _ (r :: rest) []); [|done|done|done].
    eexists. split; [reflexivity|]. split; [done|].
    unfold render_pdf. simpl. rewrite Ha. f_equal. f_equal.
    destruct c. simpl in *. by simplify_eq.
  - simpl. unfold placement_offset. by rewrite Hp, Ha.
Qed.

(** *** Handing a page to the pdf document *)

Lemma render_pdf_loop_spec (page : list (ref * Frag)) tail :
  tail = [] \/ (exists py rest, tail = PageBreakElement py :: rest) ->
  forall counter rendered,
    render_pdf_loop (map (fun p => Fragment p.1 p.2) page ++ tail) counter rendered =
      ((counter + length page + length (take 1 tail))%nat, rendered ++ page).
Proof.
  intros Htail. induction page as [|[r f] page IH]; intros counter rendered; simpl.
  - rewrite app_nil_r. destruct Htail as [->|(py & rest & ->)]; simpl.
    + f_equal. lia.
    + f_equal. lia.
  - rewrite IH. rewrite <- (assoc_L (++)). simpl. f_equal. lia.
Qed.

(** X1. [render_pdf] hands the fragments in front of the first page
    break to the pdf document, in order, and takes them and that page
    break off [render_elements]; what lies behind the page break stays
    for the next call.  Without a page break everything is handed
    over. *)
Theorem render_pdf_takes_page c (page : list (ref * Frag)) tail :
  render_elements c = Some (map (fun p => Fragment p.1 p.2) page ++ tail) ->
  tail = [] \/ (exists py rest, tail = PageBreakElement py :: rest) ->
  render_pdf c = Ok (page, with_render_elements (drop 1 tail) c).
Proof.
  intros Hrs Htail. unfold render_pdf. rewrite Hrs.
  rewrite (render_pdf_loop_spec page tail Htail). simpl. f_equal. f_equal. f_equal.
  replace (length page + length (take 1 tail))%nat
    with (length (map (fun p : ref * Frag => Fragment p.1 p.2) page)
          + length (take 1 tail))%nat by (by rewrite length_map).
  rewrite <- drop_drop, drop_app_length.
  by destruct Htail as [->|(py & rest & ->)].
Qed.

Lemma fragments_only_map (frs : list (@RenderElement Frag)) :
  Forall (fun re => is_page_break_render re = false) frs ->
  map (fun p => Fragment p.1 p.2) (fragments frs) = frs.
Proof.
  induction 1 as [|[r f|py] frs Hre Hfrs IH]; simpl; [done| |done].
  unfold fragments in *. simpl. by rewrite IH.
Qed.

(** X2. One page at a time: after a call that started with an empty
    [render_elements], [render_pdf] hands over exactly the fragments
    the call made, and the container is finished for this page
    ([render_elements] is empty again) with its queue untouched. *)
Theorem page_is_emitted_whole h ctx pdf c st sorted :
  sorted_elements c = Some sorted ->
  render_elements c = Some [] ->
  exists drained c1 st1 page c2,
    create_render_elements h ctx pdf c st = Ok (drained, c1, st1) /\
    render_elements c1 =
      Some (map (fun p => Fragment p.1 p.2) page ++
            if drained then [] else [PageBreakElement (-1)]) /\
    render_pdf c1 = Ok (page, c2) /\
    render_elements c2 = Some [] /\
    is_finished c2 = Ok true /\
    sorted_elements c2 = sorted_elements c1.
Proof.
  intros Hs Hrs.
  destruct (while_loop_shape (loop_fuel c) h ctx pdf (initial_state c st) sorted []
              Hs Hrs) as (frs & Hfr & Hres).
  { unfold loop_fuel. rewrite Hs. simpl. lia. }
  assert (Hshape : exists drained c1 st1,
             create_render_elements h ctx pdf c st = Ok (drained, c1, st1) /\
             render_elements c1 =
               Some (map (fun p => Fragment p.1 p.2) (fragments frs) ++
                     if drained then [] else [PageBreakElement (-1)])).
  { unfold create_render_elements, resume. rewrite (fragments_only_map frs Hfr).
    destruct Hres as [(s' & sorted' & -> & Hs' & Hrs')|(c' & st' & -> & Hs' & Hrs')].
    - destruct sorted' as [|r sorted'].
      + rewrite (finish_pass_drained s' Hs'). do 3 eexists. split; [done|].
        simpl. by rewrite app_nil_r.
      + rewrite (finish_pass_pending s' (r :: sorted') frs Hs' Hrs') by done.
        do 3 eexists. split; [done|]. done.
    - do 3 eexists. split; [done|]. by rewrite app_nil_r. }
  destruct Hshape as (drained & c1 & st1 & Hcall & Hrs1).
  exists drained, c1, st1, (fragments frs). eexists.
  split; [done|]. split; [done|]. split.
  - apply (render_pdf_takes_page c1 _ _ Hrs1). destruct drained; eauto.
  - unfold is_finished. by destruct drained.
Qed.

(** *** Who gets a fragment *)

Lemma drop_delete (l : list ref) n :
  (n < length l)%nat -> drop n (delete n l) = drop (S n) l.
Proof.
  intros Hn. rewrite delete_take_drop.
  rewrite <- (length_take_le l n) at 1 by lia. apply drop_app_length.
Qed.

Local Ltac owners_done :=
  split; [reflexivity|]; simpl; repeat split; auto;
  try apply sublist_nil_l; try reflexivity.

(** A turn hands out at most one fragment, owned by the element at
    [i], and goes on behind that element. *)
Lemma body_owners h ctx pdf s sorted rs r :
  sorted_elements (self s) = Some sorted ->
  render_elements (self s) = Some rs ->
  sorted !! i s = Some r ->
  (exists s' sorted' frs,
     body h ctx pdf s = Ok (Next s') /\
     sorted_elements (self s') = Some sorted' /\
     render_elements (self s') = Some (rs ++ frs) /\
     (fragments frs).*1 `sublist_of` [r] /\
     (new_page s' = true \/
      (drop (i s') sorted' = drop (S (i s)) sorted /\
       (length sorted' - i s' < length sorted - i s)%nat))) \/
  (exists c' st',
     body h ctx pdf s = Ok (Return true c' st') /\
     render_elements c' = Some rs).
Proof.
  intros Hs Hrs Hr.
  assert (Hi : (i s < length sorted)%nat) by (by eapply lookup_lt_Some).
  assert (Hdel : (length (delete (i s) sorted) - i s < length sorted - i s)%nat).
  { rewrite length_delete by eauto. lia. }
  pose proof (drop_delete sorted (i s) Hi) as Hdrop.
  destruct (blocked (completed_elements s) (store s) (store s r)) eqn:Hb.
  { left. rewrite (body_blocked h ctx pdf s sorted r Hs Hr Hb).
    eexists. exists sorted, []. rewrite app_nil_r. owners_done. }
  destruct (is_page_break (store s r)) eqn:Hpb.
  { unfold body. rewrite Hs, Hr, Hb, Hpb.
    destruct (allow_page_break (self s)).
    - left. eexists. exists (delete (i s) sorted), []. rewrite app_nil_r. owners_done.
    - right. do 2 eexists. split; [done|]. simpl. auto. }
  destruct (is_printed ctx (store s r)) eqn:Hpr.
  - destruct (Z.le_gt_cases h (placement_offset (self s) (store s) (store s r)))
      as [Hge|Hlt].
    { left. rewrite (body_overflow h ctx pdf s sorted r Hs Hr Hb Hpb Hpr Hge).
      eexists. exists sorted, []. rewrite app_nil_r. owners_done. }
    left. rewrite (body_rendered h ctx pdf s sorted rs r Hs Hrs Hr Hb Hpb Hpr Hlt).
    destruct (get_next_render_element _ _ _ _ _) as [[[f|] [|]] elem']; simpl.
    + eexists. exists (delete (i s) sorted), [Fragment r f]. owners_done.
    + eexists. exists sorted, [Fragment r f]. owners_done. right. split; [done|lia].
    + eexists. exists (delete (i s) sorted), []. rewrite app_nil_r. owners_done.
    + eexists. exists sorted, []. rewrite app_nil_r. owners_done.
      right. split; [done|lia].
  - left. rewrite (body_suppressed h ctx pdf s sorted r Hs Hr Hb Hpb Hpr).
    eexists. exists (delete (i s) sorted), []. rewrite app_nil_r. owners_done.
Qed.

Lemma fragments_app (l1 l2 : list (@RenderElement Frag)) :
  fragments (l1 ++ l2) = fragments l1 ++ fragments l2.
Proof. apply omap_app. Qed.

Lemma while_loop_owners fuel h ctx pdf : forall s sorted rs,
  sorted_elements (self s) = Some sorted ->
  render_elements (self s) = Some rs ->
  (length sorted - i s <= fuel)%nat ->
  exists frs,
    (fragments frs).*1 `sublist_of` drop (i s) sorted /\
    match while_loop fuel h ctx pdf s with
    | Ok (Next s') => render_elements (self s') = Some (rs ++ frs)
    | Ok (Return _ c' _) => render_elements c' = Some (rs ++ frs)
    | _ => False
    end.
Proof.
  induction fuel as [|fuel IH]; intros s sorted rs Hs Hrs Hfuel.
  - exists []. split; [apply sublist_nil_l|]. rewrite app_nil_r. simpl.
    unfold loop_test. rewrite Hs. destruct (new_page s); [done|].
    by destruct (Nat.ltb_spec (i s) (length sorted)); [lia|].
  - destruct (new_page s) eqn:Hn.
    { exists []. split; [apply sublist_nil_l|]. rewrite app_nil_r.
      by rewrite while_loop_stops. }
    destruct (Nat.lt_ge_cases (i s) (length sorted)) as [Hi|Hi].
    + rewrite (while_loop_turn fuel h ctx pdf s sorted Hs Hn Hi).
      destruct (lookup_lt_is_Some_2 sorted (i s) Hi) as [r Hr].
      assert (Hsplit : drop (i s) sorted = r :: drop (S (i s)) sorted).
      { by apply drop_S. }
      destruct (body_owners h ctx pdf s sorted rs r Hs Hrs Hr)
        as [(s' & sorted' & frs & -> & Hs' & Hrs' & Hown & Hm)
           |(c' & st' & -> & Hrs')].
      * destruct Hm as [Hnp|[Hdrop Hm]].
        { exists frs. rewrite while_loop_stops by done. split; [|done].
          rewrite Hsplit. etrans; [exact Hown|].
          apply sublist_skip, sublist_nil_l. }
        destruct (IH s' sorted' (rs ++ frs) Hs' Hrs') as (frs' & Hown' & Hres); [lia|].
        exists (frs ++ frs'). split.
        -- rewrite fragments_app, fmap_app, Hsplit. rewrite Hdrop in Hown'.
           exact (sublist_app _ [r] _ _ Hown Hown').
        -- rewrite (assoc_L (++)). done.
      * exists []. split; [apply sublist_nil_l|]. by rewrite app_nil_r.
    + exists []. split; [apply sublist_nil_l|]. rewrite app_nil_r. simpl.
      unfold loop_test. rewrite Hn, Hs.
      by destruct (Nat.ltb_spec (i s) (length sorted)); [lia|].
Qed.

(** X12. The fragments a call appends come from elements of the queue
    it started with, in the order of the queue and at most one per
    place in the queue. *)
Theorem fragments_follow_queue h ctx pdf c st sorted rs :
  sorted_elements c = Some sorted ->
  render_elements c = Some rs ->
  exists drained c' st' frs,
    create_render_elements h ctx pdf c st = Ok (drained, c', st') /\
    render_elements c' = Some (rs ++ frs) /\
    (fragments frs).*1 `sublist_of` sorted.
Proof.
  intros Hs Hrs.
  destruct (while_loop_owners (loop_fuel c) h ctx pdf (initial_state c st) sorted rs
              Hs Hrs) as (frs & Hown & Hres).
  { unfold loop_fuel. rewrite Hs. simpl. lia. }
  simpl in Hown.
  pose proof (while_loop_queue (loop_fuel c) h ctx pdf (initial_state c st) sorted Hs)
    as Hq.
  unfold create_render_elements, resume.
  destruct (while_loop _ _ _ _ _) as [[s'|b c' st']| |]; try done.
  - destruct Hq as (sorted' & Hs' & _).
    { unfold loop_fuel. rewrite Hs. simpl. lia. }
    unfold finish_pass. simpl. rewrite Hs'.
    destruct sorted' as [|r' pending]; simpl.
    + do 3 eexists. exists frs. split; [done|]. done.
    + rewrite Hres. do 3 eexists. exists (frs ++ [PageBreakElement (-1)]).
      split; [done|]. simpl. rewrite (assoc_L (++)). split; [done|].
      rewrite fragments_app. simpl. by rewrite app_nil_r.
  - do 3 eexists. exists frs. done.
Qed.

(** *** What [prepare] puts in the queue *)

Lemma same_but_links_fields (e e' : @DocElement Content) :
  same_but_links e e' ->
  y e' = y e /\ x e' = x e /\ sort_order e' = sort_order e /\
  first_render_element e' = first_render_element e /\
  rendering_complete e' = rendering_complete e.
Proof.
  unfold same_but_links. destruct e, e'. simpl. intros [= -> -> -> -> -> -> ->].
  done.
Qed.

Lemma set_predecessor_links elem p st r :
  same_but_links (st r) (set_predecessor elem p st r).
Proof.
  unfold set_predecessor, same_but_links.
  destruct (decide (p = r)) as [->|];
    [rewrite store_alter_eq|rewrite store_alter_ne by done];
    (destruct (decide (elem = r)) as [->|];
      [rewrite store_alter_eq|rewrite store_alter_ne by done]); done.
Qed.

Lemma assign_predecessors_links sorted : forall rest i st r,
  same_but_links (st r) (assign_predecessors sorted i rest st r).
Proof.
  induction rest as [|elem rest IH]; intros i st r; simpl; [done|].
  unfold same_but_links in *. rewrite IH. unfold assign_predecessor.
  destruct (find_predecessor st sorted i elem) as [p|]; [|done].
  destruct (is_page_break (st p)); [done|]. apply set_predecessor_links.
Qed.

Lemma py_sorted_ext key key' l :
  (forall r, key r = key' r) -> py_sorted key l = py_sorted key' l.
Proof.
  intros Hk. induction l as [|a l IH]; simpl; [done|]. rewrite IH.
  generalize (py_sorted key' l). intros q.
  induction q as [|b q IHq]; simpl; [done|]. by rewrite !Hk, IHq.
Qed.

(** The loop of lines 30-37 collects the added elements that pass the
    test of line 31, in the order in which they were added. *)
Lemma prepare_loop_collects allow ctx pdf only_verify st l : forall acc st1,
  NoDup l ->
  (forall r, r ∈ l -> st1 r = st r) ->
  (fold_left (prepare_element elem_prepare allow ctx pdf only_verify) l (acc, st1)).1 =
    acc ++ filter (fun r => collected_by_prepare (bool_decide (is_Some pdf))
                              only_verify st r = true) l.
Proof.
  induction l as [|elem l IH]; intros acc st1 Hnd Hagree; simpl.
  { by rewrite app_nil_r. }
  apply NoDup_cons in Hnd as [Hnin Hnd].
  assert (Heq : collected_by_prepare (bool_decide (is_Some pdf)) only_verify st elem
                = (bool_decide (is_Some pdf) || negb (spreadsheet_hide (st1 elem))
                   || only_verify)).
  { unfold collected_by_prepare. rewrite Hagree by left. done. }
  rewrite filter_cons.
  destruct (bool_decide (is_Some pdf) || negb (spreadsheet_hide (st1 elem))
            || only_verify) eqn:Htest.
  - rewrite decide_True by done. rewrite IH; [by rewrite <- (assoc_L (++))|done|].
    intros r Hr. rewrite <- (Hagree r) by (by right).
    assert (elem <> r) by (by intros ->).
    destruct (negb allow); by rewrite !store_alter_ne.
  - rewrite decide_False by (by rewrite Heq). apply IH; [done|].
    intros r Hr. apply Hagree. by right.
Qed.

(** Where page breaks are not allowed the loop leaves every collected
    element ready to be rendered from its start. *)
Lemma prepare_loop_resets ctx pdf only_verify st l : forall acc st1,
  (forall r, r ∈ acc ->
     first_render_element (st1 r) = true /\ rendering_complete (st1 r) = false) ->
  forall r,
    r ∈ (fold_left (prepare_element elem_prepare false ctx pdf only_verify) l
           (acc, st1)).1 ->
    first_render_element
      ((fold_left (prepare_element elem_prepare false ctx pdf only_verify) l
          (acc, st1)).2 r) = true /\
    rendering_complete
      ((fold_left (prepare_element elem_prepare false ctx pdf only_verify) l
          (acc, st1)).2 r) = false.
Proof.
  induction l as [|elem l IH]; intros acc st1 Hacc; simpl; [done|].
  destruct (bool_decide (is_Some pdf) || negb (spreadsheet_hide (st1 elem))
            || only_verify); [|by apply IH].
  apply IH. intros r Hr. apply elem_of_app in Hr as [Hr|Hr].
  - destruct (decide (elem = r)) as [->|Hne].
    + by rewrite store_alter_eq.
    + rewrite !store_alter_ne by done. by apply Hacc.
  - apply list_elem_of_singleton in Hr as ->. by rewrite store_alter_eq.
Qed.

(** X8. In a band that does not allow page breaks, [prepare] leaves
    every element of the queue with [first_render_element] set and
    [rendering_complete] cleared, whatever state an earlier page left
    it in, so that the band is rendered from its start again. *)
Theorem band_elements_start_afresh ctx pdf only_verify c st queue r :
  allow_page_break c = false ->
  sorted_elements (prepare ctx pdf only_verify c st).1 = Some queue ->
  r ∈ queue ->
  first_render_element ((prepare ctx pdf only_verify c st).2 r) = true /\
  rendering_complete ((prepare ctx pdf only_verify c st).2 r) = false.
Proof.
  intros Ha Hq Hr. unfold prepare, prepare_loop in *. rewrite Ha in *.
  pose proof (prepare_loop_resets ctx pdf only_verify st (doc_elements c) [] st) as Hres.
  destruct (fold_left _ _ _) as [collected st1]. simpl in Hres.
  destruct (bool_decide (is_Some pdf)); simpl in *; simplify_eq.
  - rewrite py_sorted_Permutation in Hr.
    destruct (same_but_links_fields _ _
                (assign_predecessors_links
                   (py_sorted (fun r0 => (y (st1 r0), sort_order (st1 r0))) collected)
                   (py_sorted (fun r0 => (y (st1 r0), sort_order (st1 r0))) collected)
                   0 st1 r)) as (_ & _ & _ & -> & ->).
    apply Hres; [|done]. intros r0 Hr0. by apply elem_of_nil in Hr0.
  - rewrite py_sorted_Permutation in Hr.
    apply Hres; [|done]. intros r0 Hr0. by apply elem_of_nil in Hr0.
Qed.

(** X9. After [prepare] the queue holds exactly the added elements
    that pass the test of line 31 (with a pdf document or in a
    verification all of them, else those not hidden in spreadsheets, as
    they were before their own [prepare]), ordered by top and then by
    [sort_order] for a pdf document and by [x] otherwise;
    [render_elements] is emptied for a pdf document and left alone
    otherwise. *)
Theorem prepare_builds_queue ctx pdf only_verify c st :
  NoDup (doc_elements c) ->
  exists queue,
    sorted_elements (prepare ctx pdf only_verify c st).1 = Some queue /\
    queue ≡ₚ filter (fun r => collected_by_prepare (bool_decide (is_Some pdf))
                                only_verify st r = true) (doc_elements c) /\
    StronglySorted
      (fun a b =>
         key_le
           (y ((prepare ctx pdf only_verify c st).2 a),
            if bool_decide (is_Some pdf)
            then sort_order ((prepare ctx pdf only_verify c st).2 a)
            else x ((prepare ctx pdf only_verify c st).2 a))
           (y ((prepare ctx pdf only_verify c st).2 b),
            if bool_decide (is_Some pdf)
            then sort_order ((prepare ctx pdf only_verify c st).2 b)
            else x ((prepare ctx pdf only_verify c st).2 b)) = true)
      queue /\
    render_elements (prepare ctx pdf only_verify c st).1 =
      (if bool_decide (is_Some pdf) then Some [] else render_elements c).
Proof.
  intros Hnd. unfold prepare, prepare_loop.
  pose proof (prepare_loop_collects (allow_page_break c) ctx pdf only_verify st
                (doc_elements c) [] st Hnd (fun _ _ => eq_refl)) as Hcol.
  destruct (fold_left _ _ _) as [collected st1]. simpl in Hcol.
  destruct (bool_decide (is_Some pdf)) eqn:Hpdf; simpl.
  - eexists. split; [done|]. split; [by rewrite py_sorted_Permutation, Hcol|].
    split; [|done].
    set (sorted := py_sorted (fun r => (y (st1 r), sort_order (st1 r))) collected).
    set (st2 := assign_predecessors sorted 0 sorted st1).
    unfold sorted at 1.
    rewrite (py_sorted_ext _ (fun r => (y (st2 r), sort_order (st2 r)))).
    + apply (py_sorted_StronglySorted (fun r => (y (st2 r), sort_order (st2 r)))).
    + intros r.
      destruct (same_but_links_fields _ _
                  (assign_predecessors_links sorted sorted 0 st1 r))
        as (Hy & _ & Hso & _).
      unfold st2. by rewrite Hy, Hso.
  - eexists. split; [done|]. split; [by rewrite py_sorted_Permutation, Hcol|].
    split; [|done].
    apply (py_sorted_StronglySorted (fun r => (y (st1 r), x (st1 r)))).
Qed.

(** *** The links cut after a page *)

Lemma sever_one_element (l : list ref) : forall st r,
  fold_left (fun st2 successor => alter (with_predecessor None) successor st2) l st r =
    if bool_decide (r ∈ l) then with_predecessor None (st r) else st r.
Proof.
  induction l as [|a l IH]; intros st r; simpl; [done|].
  rewrite IH. destruct (decide (a = r)) as [->|Hne].
  - rewrite store_alter_eq. rewrite (bool_decide_eq_true_2 (r ∈ r :: l)) by left.
    by destruct (bool_decide (r ∈ l)).
  - rewrite store_alter_ne by done.
    destruct (bool_decide (r ∈ l)) eqn:Hin.
    + apply bool_decide_eq_true_1 in Hin.
      by rewrite (bool_decide_eq_true_2 (r ∈ a :: l)) by (by right).
    + apply bool_decide_eq_false_1 in Hin.
      rewrite (bool_decide_eq_false_2 (r ∈ a :: l)); [done|].
      intros [?|?]%elem_of_cons; done.
Qed.

Lemma sever_successors_spec processed : forall st,
  (forall r, same_but_predecessor (st r) (sever_successors processed st r)) /\
  (forall r, predecessor (st r) = None ->
     predecessor (sever_successors processed st r) = None) /\
  (forall pe successor,
     pe ∈ processed -> successor ∈ successors (st pe) ->
     predecessor (sever_successors processed st successor) = None) /\
  (forall r,
     (forall pe, pe ∈ processed -> r ∉ successors (st pe)) ->
     sever_successors processed st r = st r).
Proof.
  unfold sever_successors.
  induction processed as [|pe0 processed IH]; intros st; simpl.
  { repeat split; auto. intros pe successor Hpe. by apply elem_of_nil in Hpe. }
  set (st1 := fold_left
                (fun st2 successor => alter (with_predecessor None) successor st2)
                (successors (st pe0)) st).
  assert (Hst1 : forall r, st1 r = if bool_decide (r ∈ successors (st pe0))
                                   then with_predecessor None (st r) else st r).
  { intros r. apply sever_one_element. }
  assert (Hsame : forall r, same_but_predecessor (st r) (st1 r)).
  { intros r. rewrite Hst1. unfold same_but_predecessor.
    by destruct (bool_decide _). }
  assert (Hsucc : forall r, successors (st1 r) = successors (st r)).
  { intros r. rewrite Hst1. by destruct (bool_decide _). }
  destruct (IH st1) as (Ha & Hb & Hc & Hd).
  split; [|split; [|split]].
  - intros r. unfold same_but_predecessor in *. by rewrite Ha.
  - intros r Hr. apply Hb. rewrite Hst1. by destruct (bool_decide _).
  - intros pe successor Hpe Hin. apply elem_of_cons in Hpe as [->|Hpe].
    + apply Hb. rewrite Hst1. by rewrite bool_decide_eq_true_2.
    + apply Hc with pe; [done|]. by rewrite Hsucc.
  - intros r Hr. rewrite Hd.
    + rewrite Hst1. rewrite bool_decide_eq_false_2; [done|]. apply Hr. left.
    + intros pe Hpe. rewrite Hsucc. apply Hr. by right.
Qed.

(** X11. When elements are left after the loop, the lines behind it
    clear the predecessor of every successor of an element processed
    on this page, and change nothing else: every element keeps its
    other attributes, and an element that is no successor of a
    processed one is left as it is.  When the queue is empty no link is
    cut. *)
Theorem links_cut_for_next_page s sorted rs :
  sorted_elements (self s) = Some sorted ->
  render_elements (self s) = Some rs ->
  exists c' st',
    finish_pass s = Ok (bool_decide (sorted = []), c', st') /\
    (sorted = [] -> st' = store s) /\
    (sorted <> [] ->
     (forall pe successor,
        pe ∈ processed_elements s -> successor ∈ successors (store s pe) ->
        predecessor (st' successor) = None) /\
     (forall r, same_but_predecessor (store s r) (st' r)) /\
     (forall r,
        (forall pe, pe ∈ processed_elements s -> r ∉ successors (store s pe)) ->
        st' r = store s r)).
Proof.
  intros Hs Hrs. destruct sorted as [|r0 sorted].
  - rewrite (finish_pass_drained s Hs). do 2 eexists. split; [done|]. done.
  - rewrite (finish_pass_pending s (r0 :: sorted) rs Hs Hrs) by done.
    do 2 eexists. split; [done|]. split; [done|]. intros _.
    destruct (sever_successors_spec (processed_elements s) (store s))
      as (Ha & _ & Hc & Hd).
    auto.
Qed.

(** *** What a call does to the elements *)

Lemma body_store h ctx pdf s sorted r :
  sorted_elements (self s) = Some sorted ->
  r ∉ sorted ->
  match body h ctx pdf s with
  | Ok (Next s') => store s' r = store s r
  | Ok (Return _ _ st') => st' r = store s r
  | _ => True
  end.
Proof.
  intros Hs Hr. unfold body, consume. rewrite Hs.
  destruct (sorted !! i s) as [r0|] eqn:Hr0; [|done].
  assert (r0 <> r).
  { intros ->. apply Hr. by eapply list_elem_of_lookup_2. }
  repeat case_match; simplify_eq; cbn [store]; try done;
    rewrite ?store_insert_ne, ?store_alter_ne by done; done.
Qed.

Lemma while_loop_store fuel h ctx pdf r : forall s sorted,
  sorted_elements (self s) = Some sorted ->
  r ∉ sorted ->
  match while_loop fuel h ctx pdf s with
  | Ok (Next s') => store s' r = store s r
  | Ok (Return _ _ st') => st' r = store s r
  | _ => True
  end.
Proof.
  induction fuel as [|fuel IH]; intros s sorted Hs Hr; simpl.
  - by destruct (loop_test s) as [[|]| |].
  - unfold loop_test. rewrite Hs. destruct (new_page s); [done|].
    destruct (Nat.ltb_spec (i s) (length sorted)) as [Hi|Hi]; [|done].
    pose proof (body_store h ctx pdf s sorted r Hs Hr) as Hb.
    pose proof (body_queue h ctx pdf s sorted Hs Hi) as Hq.
    destruct (body h ctx pdf s) as [[s'|b c' st']| |]; try done.
    destruct Hq as (sorted' & Hs' & Hsub & _).
    assert (Hr' : r ∉ sorted').
    { intros Hin. apply Hr. by eapply sublist_subseteq. }
    specialize (IH s' sorted' Hs' Hr').
    destruct (while_loop fuel h ctx pdf s') as [[s''|b c' st']| |]; try done;
      congruence.
Qed.

(** The lines behind the loop leave an element as it is or clear its
    predecessor. *)
Lemma sever_successors_cases processed : forall st r,
  sever_successors processed st r = st r \/
  sever_successors processed st r = with_predecessor None (st r).
Proof.
  unfold sever_successors.
  induction processed as [|pe0 processed IH]; intros st r; simpl; [by left|].
  pose proof (sever_one_element (successors (st pe0)) st r) as H0.
  destruct (IH (fold_left
                  (fun st2 successor => alter (with_predecessor None) successor st2)
                  (successors (st pe0)) st) r) as [H1|H1];
    destruct (bool_decide (r ∈ successors (st pe0))).
  - right. exact (eq_trans H1 H0).
  - left. exact (eq_trans H1 H0).
  - right. exact (eq_trans H1 (f_equal (with_predecessor None) H0)).
  - right. exact (eq_trans H1 (f_equal (with_predecessor None) H0)).
Qed.

(** X16. A call leaves the elements outside the queue alone, except
    that it may clear their predecessor: such an element is afterwards
    as it was before, or as it was before with [predecessor = None].
    Only pending elements are asked to render or are finished empty. *)
Theorem other_elements_untouched h ctx pdf c st sorted r :
  sorted_elements c = Some sorted ->
  r ∉ sorted ->
  match create_render_elements h ctx pdf c st with
  | Ok (_, _, st') => st' r = st r \/ st' r = with_predecessor None (st r)
  | _ => True
  end.
Proof.
  intros Hs Hr. unfold create_render_elements, resume.
  pose proof (while_loop_store (loop_fuel c) h ctx pdf r (initial_state c st) sorted
                Hs Hr) as Hw.
  destruct (while_loop _ _ _ _ _) as [[s'|b c' st']| |]; try done.
  - unfold finish_pass. simpl in Hw.
    pose proof (sever_successors_cases (processed_elements s') (store s') r) as Hc.
    rewrite Hw in Hc.
    repeat case_match; simplify_eq/=; try done; by left.
  - simpl in Hw. by left.
Qed.

(** *** [cleanup] *)

Variable elem_cleanup : @DocElement Content -> @DocElement Content.

(** X14. [cleanup] cleans up every added element once and touches no
    other element. *)
Theorem cleanup_added_elements (c : @Container Frag) st r :
  NoDup (doc_elements c) ->
  cleanup elem_cleanup c st r =
    if bool_decide (r ∈ doc_elements c) then elem_cleanup (st r) else st r.
Proof.
  unfold cleanup. generalize (doc_elements c). intros l. revert st.
  induction l as [|a l IH]; intros st Hnd; simpl; [done|].
  apply NoDup_cons in Hnd as [Hnin Hnd]. rewrite IH by done.
  destruct (decide (a = r)) as [->|Hne].
  - rewrite store_alter_eq. rewrite (bool_decide_eq_true_2 (r ∈ r :: l)) by left.
    by rewrite bool_decide_eq_false_2.
  - rewrite store_alter_ne by done.
    destruct (bool_decide (r ∈ l)) eqn:Hin.
    + apply bool_decide_eq_true_1 in Hin.
      by rewrite (bool_decide_eq_true_2 (r ∈ a :: l)) by (by right).
    + apply bool_decide_eq_false_1 in Hin.
      rewrite (bool_decide_eq_false_2 (r ∈ a :: l)); [done|].
      intros [?|?]%elem_of_cons; done.
Qed.

(** *** The columns of a spreadsheet row *)

Lemma render_row_chain st ctx current_row : forall run current_col row max_col emitted,
  exists ems,
    (render_row elem_render_spreadsheet st ctx run current_row current_col row max_col
       emitted).2 = emitted ++ ems /\
    (forall em, head ems = Some em -> em_col em = current_col) /\
    (forall n em1 em2,
       ems !! n = Some em1 -> ems !! S n = Some em2 ->
       em_col em2 = em_next_col em1).
Proof.
  induction run as [|r run IH]; intros current_col row max_col emitted; simpl.
  - exists []. rewrite app_nil_r. repeat split; try done.
  - destruct (elem_render_spreadsheet (st r) current_row current_col ctx)
      as [tmp_row next_col] eqn:Hcall.
    destruct (IH next_col (Z.max row tmp_row)
                (if next_col >? max_col then next_col else max_col)
                (emitted ++ [mkEmission r current_row current_col tmp_row next_col]))
      as (ems & -> & Hhead & Hchain).
    exists (mkEmission r current_row current_col tmp_row next_col :: ems).
    rewrite <- (assoc_L (++)). split; [done|]. split; [by intros em [= <-]|].
    intros [|n] em1 em2 H1 H2; simpl in H1, H2.
    + injection H1 as <-. simpl. apply Hhead. by destruct ems.
    + by eapply Hchain.
Qed.

Lemma spreadsheet_loop_chain st ctx sorted count col : forall fuel i row max_col rows,
  match spreadsheet_loop elem_render_spreadsheet fuel st ctx sorted count col
          i row max_col rows with
  | Ok (_, _, rows') =>
      exists new,
        rows' = rows ++ new /\
        forall run n em1 em2,
          run ∈ new -> run !! n = Some em1 -> run !! S n = Some em2 ->
          em_col em2 = em_next_col em1
  | _ => True
  end.
Proof.
  induction fuel as [|fuel IH]; intros i row max_col rows; simpl.
  { destruct (i <? count)%nat; [done|]. exists []. rewrite app_nil_r.
    split; [done|]. intros run n em1 em2 Hin. by apply elem_of_nil in Hin. }
  destruct (i <? count)%nat; cycle 1.
  { exists []. rewrite app_nil_r.
    split; [done|]. intros run n em1 em2 Hin. by apply elem_of_nil in Hin. }
  destruct (sorted !! i) as [elem|]; [|done].
  destruct (collect_row st elem (drop (S i) sorted) (S i) [elem]) as [j row_elements].
  destruct (render_row_chain st ctx row row_elements col row max_col [])
    as (ems & Hems & _ & Hchain).
  destruct (render_row _ _ _ _ _ _ _ _ _) as [[row' max_col'] emitted].
  simpl in Hems. subst emitted.
  specialize (IH j row' max_col' (rows ++ [ems])).
  destruct (spreadsheet_loop _ _ _ _ _ _ _ _ _ _ _) as [[[r1 c1] rows']| |]; try done.
  destruct IH as (new & -> & Hnew). exists (ems :: new).
  rewrite <- (assoc_L (++)). split; [done|].
  intros run n em1 em2 Hin. apply elem_of_cons in Hin as [->|Hin].
  - apply Hchain.
  - by apply Hnew.
Qed.

(** X10. In a row of the spreadsheet the elements follow each other
    from left to right: each one is called with the column that the
    element before it reported. *)
Theorem spreadsheet_columns_chain row col ctx c st sorted :
  sorted_elements c = Some sorted ->
  exists row' max_col' rows,
    render_spreadsheet row col ctx c st = Ok (row', max_col', rows) /\
    forall run n em1 em2,
      run ∈ rows -> run !! n = Some em1 -> run !! S n = Some em2 ->
      em_col em2 = em_next_col em1.
Proof.
  intros Hs. unfold render_spreadsheet. rewrite Hs.
  destruct (spreadsheet_loop_spec st ctx sorted col (length sorted) 0 row col [])
    as (rows & Hrun & _); [lia|].
  pose proof (spreadsheet_loop_chain st ctx sorted (length sorted) col
                (length sorted) 0%nat row col []) as Hc.
  rewrite Hrun in Hc |- *. destruct Hc as (new & Hnew & Hchain).
  simpl in Hnew. subst new. do 3 eexists. split; [done|]. exact Hchain.
Qed.

End Facts.

(** ** The properties at concrete containers *)

Section Instances.

Import Examples.

Lemma dependent_waits_for_predecessor_witness :
  sorted_elements (self chain_turn) = Some [0; 1]%nat /\
  i chain_turn = 1%nat /\
  predecessor (store chain_turn 1%nat) = Some 0%nat /\
  rendering_complete (store chain_turn 0%nat) = false /\
  exists c' st',
    resume always render_part 1 1000 tt (Some tt) chain_turn = Ok (false, c', st') /\
    sorted_elements c' = Some [0; 1]%nat /\
    render_elements c' = Some [Fragment 0%nat 100; PageBreakElement (-1)].
Proof.
  assert (Hs : sorted_elements (self chain_turn) = Some [0; 1]%nat) by reflexivity.
  assert (Hrs : render_elements (self chain_turn) = Some [Fragment 0%nat 100])
    by reflexivity.
  assert (Hn : new_page chain_turn = false) by reflexivity.
  assert (Hr : [0; 1]%nat !! i chain_turn = Some 1%nat) by reflexivity.
  assert (Hp : predecessor (store chain_turn 1%nat) = Some 0%nat) by reflexivity.
  assert (Hc : rendering_complete (store chain_turn 0%nat) = false) by reflexivity.
  split; [exact Hs|]. split; [reflexivity|]. split; [exact Hp|]. split; [exact Hc|].
  apply (dependent_waits_for_predecessor always render_part 0 1000 tt (Some tt)
           chain_turn [0; 1]%nat [Fragment 0%nat 100] 1%nat 0%nat Hs Hrs Hn Hr Hp).
  right. exact Hc.
Defined.

Lemma chained_offset_witness :
  bottom (store gap_turn 0%nat) = 100 /\
  y (store gap_turn 1%nat) = 120 /\
  render_bottom (store gap_turn 0%nat) = 140 /\
  placement_offset (self gap_turn) (store gap_turn) (store gap_turn 1%nat) = 160 /\
  store gap_next 1%nat =
    (render_whole (store gap_turn 1%nat) 160 500 tt (Some tt)).2.
Proof.
  assert (Hs : sorted_elements (self gap_turn) = Some [1%nat]) by reflexivity.
  assert (Hrs : render_elements (self gap_turn) = Some [Fragment 0%nat 80])
    by reflexivity.
  assert (Hr : [1%nat] !! i gap_turn = Some 1%nat) by reflexivity.
  assert (Hp : predecessor (store gap_turn 1%nat) = Some 0%nat) by reflexivity.
  assert (Hb : body always render_whole 500 tt (Some tt) gap_turn = Ok (Next gap_next))
    by reflexivity.
  assert (Hnp : new_page gap_next = false) by reflexivity.
  destruct (chained_offset always render_whole 500 tt (Some tt) gap_turn gap_next
              [1%nat] [Fragment 0%nat 80] 1%nat 0%nat Hs Hrs Hr Hp Hb Hnp)
    as (Hoff & Hst & Hnum).
  split; [reflexivity|]. split; [reflexivity|]. split; [reflexivity|].
  split; [exact Hoff|exact Hst].
Defined.

Lemma page_break_in_fixed_band_witness :
  allow_page_break band_page.1 = false /\
  is_page_break (band_page.2 0%nat) = true /\
  exists c',
    resume always render_whole 1 40 tt (Some tt)
      (initial_state band_page.1 band_page.2) = Ok (true, c', band_page.2) /\
    sorted_elements c' = Some [] /\
    render_elements c' = Some [].
Proof.
  split; [reflexivity|]. split; [reflexivity|].
  apply (page_break_in_fixed_band always render_whole 0 40 tt (Some tt)
           (initial_state band_page.1 band_page.2) [0; 1]%nat 0%nat);
    reflexivity.
Defined.

(** C4, the claim as stated.  A text at 0..10, a page break at 20 and
    a text at 30: the first text is sorted before the last one, is no
    page break and ends above it, and it is the only such element; yet
    the last text gets no predecessor, because the page break between
    them is the closest element above. *)
Lemma page_break_hides_candidate :
  sorted_elements break_page.1 = Some [0; 1; 2]%nat /\
  is_page_break (break_page.2 0%nat) = false /\
  bottom (break_page.2 0%nat) <= y (break_page.2 2%nat) /\
  is_page_break (break_page.2 1%nat) = true /\
  predecessor (break_page.2 2%nat) = None /\
  predecessor (break_page.2 2%nat) <> Some 0%nat.
Proof. repeat split; try reflexivity; [by vm_compute|done]. Qed.

Lemma predecessor_selection_witness :
  NoDup (doc_elements (container_of [0; 1; 2]%nat)) /\
  sorted_elements break_page.1 = Some [0; 1; 2]%nat /\
  forall p,
    predecessor (break_page.2 1%nat) = Some p ->
    is_page_break (break_page.2 p) = false \/
    predecessor
      ((prepare_loop keep tt (Some tt) false (container_of [0; 1; 2]%nat)
          store_break).2 1%nat) = Some p.
Proof.
  assert (Hnd : NoDup (doc_elements (container_of [0; 1; 2]%nat))).
  { apply (bool_decide_unpack _). by vm_compute. }
  split; [exact Hnd|]. split; [reflexivity|].
  apply (predecessor_selection keep tt tt false (container_of [0; 1; 2]%nat)
           store_break [0; 1; 2]%nat 1%nat 1%nat Hnd); reflexivity.
Defined.


(** C6, the claim as stated.  The text at 100 in a container of height
    100: its offset 100 does not exceed the height, yet the page ends
    and the text is neither asked for a fragment nor taken out of the
    queue. *)
Lemma offset_at_height_ends_page :
  is_page_break (single_page.2 0%nat) = false /\
  always tt (single_page.2 0%nat) = true /\
  placement_offset single_page.1 single_page.2 (single_page.2 0%nat) = 100 /\
  ~ 100 > 100 /\
  match create_render_elements always render_whole 100 tt (Some tt)
          single_page.1 single_page.2 with
  | Ok (drained, c', st') =>
      drained = false /\
      sorted_elements c' = Some [0%nat] /\
      render_elements c' = Some [PageBreakElement (-1)] /\
      st' 0%nat = single_page.2 0%nat
  | _ => False
  end.
Proof. repeat split; try reflexivity. lia. Qed.

Lemma overflow_ends_page_witness :
  sorted_elements single_page.1 = Some [0%nat] /\
  always tt (single_page.2 0%nat) = true /\
  exists s',
    body always render_whole 100 tt (Some tt)
      (initial_state single_page.1 single_page.2) = Ok (Next s') /\
    new_page s' = true /\
    self s' = single_page.1.
Proof.
  split; [reflexivity|]. split; [reflexivity|].
  destruct (overflow_ends_page always render_whole 100 tt (Some tt)
              (initial_state single_page.1 single_page.2) [0%nat] [] 0%nat
              eq_refl eq_refl eq_refl eq_refl eq_refl eq_refl)
    as (s' & Hbody & Hiff & Hge & _).
  assert (Hoff : 100 <= placement_offset single_page.1 single_page.2
                          (single_page.2 0%nat)) by (by vm_compute).
  exists s'. split; [exact Hbody|]. split; [by apply Hiff|]. by apply Hge.
Defined.

Lemma suppressed_element_witness :
  sorted_elements single_page.1 = Some [0%nat] /\
  never tt (single_page.2 0%nat) = false /\
  exists s',
    body never render_whole 0 tt (Some tt)
      (initial_state single_page.1 single_page.2) = Ok (Next s') /\
    sorted_elements (self s') = Some [] /\
    render_elements (self s') = Some [] /\
    rendering_complete (store s' 0%nat) = true.
Proof.
  split; [reflexivity|]. split; [reflexivity|].
  destruct (suppressed_element never render_whole 0 tt (Some tt)
              (initial_state single_page.1 single_page.2) [0%nat] 0%nat
              eq_refl eq_refl eq_refl eq_refl eq_refl)
    as (s' & Hbody & Hs & Hrs & _ & Hc & _).
  exists s'. split; [exact Hbody|]. split; [exact Hs|]. split; [exact Hrs|].
  exact Hc.
Defined.

Lemma page_queue_shape_witness :
  sorted_elements break_page.1 = Some [0; 1; 2]%nat /\
  render_elements break_page.1 = Some [] /\
  exists drained c' st' pending frs,
    create_render_elements always render_whole 100 tt (Some tt)
      break_page.1 break_page.2 = Ok (drained, c', st') /\
    sorted_elements c' = Some pending /\
    drained = bool_decide (pending = []) /\
    Forall (fun re => is_page_break_render re = false) frs /\
    render_elements c' =
      Some (frs ++ if drained then [] else [PageBreakElement (-1)]).
Proof.
  split; [reflexivity|]. split; [reflexivity|].
  apply (page_queue_shape always render_whole 100 tt (Some tt)
           break_page.1 break_page.2 [0; 1; 2]%nat); reflexivity.
Defined.

Lemma spreadsheet_rows_witness :
  sorted_elements sheet.1 = Some [0; 1; 2; 3]%nat /\
  exists row' max_col' rows,
    render_spreadsheet one_cell 0 0 tt sheet.1 sheet.2 = Ok (row', max_col', rows) /\
    map (map em_elem) rows = [[0; 1; 2]; [3]]%nat.
Proof.
  split; [reflexivity|].
  destruct (spreadsheet_rows one_cell 0 0 tt sheet.1 sheet.2 [0; 1; 2; 3]%nat eq_refl)
    as (row' & max_col' & rows & Hcall & _ & _ & _ & _ & _ & _ & _ & Hfour).
  exists row', max_col', rows. split; [exact Hcall|].
  apply Hfour; reflexivity.
Defined.

End Instances.

(** ** Further properties at concrete containers *)

Section MoreInstances.

Import Examples MoreExamples.


Lemma pending_only_shrinks_witness :
  sorted_elements break_page.1 = Some [0; 1; 2]%nat /\
  match create_render_elements always render_whole 100 tt (Some tt)
          break_page.1 break_page.2 with
  | Ok (drained, c', _) =>
      exists pending,
        sorted_elements c' = Some pending /\
        pending `sublist_of` [0; 1; 2]%nat /\
        drained = bool_decide (pending = [])
  | _ => True
  end.
Proof.
  split; [reflexivity|].
  apply (pending_only_shrinks always render_whole 100 tt (Some tt)
           break_page.1 break_page.2 [0; 1; 2]%nat).
  reflexivity.
Defined.

Lemma no_page_without_render_queue_witness :
  render_elements hidden_only.1 = None /\
  match create_render_elements always render_whole 100 tt (Some tt)
          hidden_only.1 hidden_only.2 with
  | Ok (drained, c', _) =>
      drained = true /\ sorted_elements c' = Some [] /\ render_elements c' = None
  | Raise => True
  | OutOfFuel => False
  end.
Proof.
  split; [reflexivity|].
  apply (no_page_without_render_queue always render_whole 100 tt (Some tt)
           hidden_only.1 hidden_only.2).
  reflexivity.
Defined.

Lemma drained_stays_drained_witness :
  sorted_elements hidden_only.1 = Some [] /\
  create_render_elements always render_whole 100 tt (Some tt)
    hidden_only.1 hidden_only.2 =
    Ok (true, with_explicit_page_break false hidden_only.1, hidden_only.2).
Proof.
  split; [reflexivity|].
  apply (drained_stays_drained always render_whole 100 tt (Some tt)
           hidden_only.1 hidden_only.2).
  reflexivity.
Defined.

Lemma linked_head_stalls_witness :
  sorted_elements chain_second_page.1 = Some [1%nat] /\
  render_elements chain_second_page.1 = Some [] /\
  predecessor (chain_second_page.2 1%nat) = Some 0%nat /\
  exists c',
    create_render_elements always render_whole 1000 tt (Some tt)
      chain_second_page.1 chain_second_page.2 = Ok (false, c', chain_second_page.2) /\
    sorted_elements c' = Some [1%nat] /\
    render_elements c' = Some [PageBreakElement (-1)].
Proof.
  split; [reflexivity|]. split; [reflexivity|]. split; [reflexivity|].
  destruct (linked_head_stalls always render_whole 1000 tt (Some tt)
              chain_second_page.1 chain_second_page.2 1%nat [] [] 0%nat
              eq_refl eq_refl eq_refl)
    as (c' & Hcall & Hs & Hrs & _).
  exists c'. split; [exact Hcall|]. split; [exact Hs|exact Hrs].
Defined.

Lemma page_break_consumed_witness :
  sorted_elements (self break_turn) = Some [1; 2]%nat /\
  is_page_break (store break_turn 1%nat) = true /\
  exists drained c' st',
    resume always render_whole 1 100 tt (Some tt) break_turn =
      Ok (drained, c', st') /\
    drained = false /\
    sorted_elements c' = Some [2%nat] /\
    page_y c' = 20 /\
    explicit_page_break c' = true /\
    render_elements c' = Some [Fragment 0%nat 0; PageBreakElement (-1)].
Proof.
  split; [reflexivity|]. split; [reflexivity|].
  destruct (page_break_consumed always render_whole 0 100 tt (Some tt)
              break_turn [1; 2]%nat [Fragment 0%nat 0] 1%nat
              eq_refl eq_refl eq_refl eq_refl eq_refl eq_refl eq_refl)
    as (drained & c' & st' & Hcall & Hs & Hd & Hy & He & Hrs & _).
  exists drained, c', st'. split; [exact Hcall|].
  split; [exact Hd|]. split; [exact Hs|]. split; [exact Hy|]. split; [exact He|].
  rewrite Hrs, Hd. reflexivity.
Defined.

Lemma low_element_never_placed_witness :
  allow_page_break low_band.1 = false /\
  sorted_elements low_band.1 = Some [0%nat] /\
  40 <= y (low_band.2 0%nat) /\
  exists c1,
    create_render_elements always render_whole 40 tt (Some tt)
      low_band.1 low_band.2 = Ok (false, c1, low_band.2) /\
    render_elements c1 = Some [PageBreakElement (-1)] /\
    render_pdf c1 = Ok ([], low_band.1).
Proof.
  assert (Hh : 40 <= y (low_band.2 0%nat)) by (by vm_compute).
  split; [reflexivity|]. split; [reflexivity|]. split; [exact Hh|].
  apply (low_element_never_placed always render_whole 40 tt (Some tt)
           low_band.1 low_band.2 0%nat []); try reflexivity. exact Hh.
Defined.

Lemma render_pdf_takes_page_witness :
  render_elements break_first_page =
    Some [Fragment 0%nat 0; PageBreakElement (-1)] /\
  render_pdf break_first_page =
    Ok ([(0%nat, 0)], with_render_elements [] break_first_page).
Proof.
  split; [reflexivity|].
  apply (render_pdf_takes_page break_first_page [(0%nat, 0)]
           [PageBreakElement (-1)]); [reflexivity|].
  right. by exists (-1), [].
Defined.

Lemma page_is_emitted_whole_witness :
  sorted_elements break_page.1 = Some [0; 1; 2]%nat /\
  render_elements break_page.1 = Some [] /\
  exists drained c1 st1 page c2,
    create_render_elements always render_whole 100 tt (Some tt)
      break_page.1 break_page.2 = Ok (drained, c1, st1) /\
    render_elements c1 =
      Some (map (fun p => Fragment p.1 p.2) page ++
            if drained then [] else [PageBreakElement (-1)]) /\
    render_pdf c1 = Ok (page, c2) /\
    render_elements c2 = Some [] /\
    is_finished c2 = Ok true /\
    sorted_elements c2 = sorted_elements c1.
Proof.
  split; [reflexivity|]. split; [reflexivity|].
  apply (page_is_emitted_whole always render_whole 100 tt (Some tt)
           break_page.1 break_page.2 [0; 1; 2]%nat); reflexivity.
Defined.

Lemma fragments_follow_queue_witness :
  sorted_elements chain_page.1 = Some [0; 1]%nat /\
  render_elements chain_page.1 = Some [] /\
  exists drained c' st' frs,
    create_render_elements always render_whole 1000 tt (Some tt)
      chain_page.1 chain_page.2 = Ok (drained, c', st') /\
    render_elements c' = Some ([] ++ frs) /\
    (fragments frs).*1 `sublist_of` [0; 1]%nat.
Proof.
  split; [reflexivity|]. split; [reflexivity|].
  apply (fragments_follow_queue always render_whole 1000 tt (Some tt)
           chain_page.1 chain_page.2 [0; 1]%nat []); reflexivity.
Defined.

Lemma band_elements_start_afresh_witness :
  allow_page_break (header_of [0; 1]%nat) = false /\
  sorted_elements band_page.1 = Some [0; 1]%nat /\
  first_render_element (band_page.2 1%nat) = true /\
  rendering_complete (band_page.2 1%nat) = false.
Proof.
  split; [reflexivity|]. split; [reflexivity|].
  apply (band_elements_start_afresh keep tt (Some tt) false (header_of [0; 1]%nat)
           store_band [0; 1]%nat 1%nat); [reflexivity|reflexivity|].
  apply list_elem_of_lookup. by exists 1%nat.
Defined.

Lemma prepare_builds_queue_witness :
  NoDup (doc_elements (container_of [0; 1]%nat)) /\
  exists queue,
    sorted_elements hidden_sheet.1 = Some queue /\
    queue ≡ₚ filter (fun r => collected_by_prepare false false store_hidden r = true)
               [0; 1]%nat /\
    render_elements hidden_sheet.1 = None.
Proof.
  assert (Hnd : NoDup (doc_elements (container_of [0; 1]%nat))).
  { apply (bool_decide_unpack _). by vm_compute. }
  split; [exact Hnd|].
  destruct (prepare_builds_queue keep tt None false (container_of [0; 1]%nat)
              store_hidden Hnd) as (queue & Hq & Hperm & _ & Hrs).
  exists queue. split; [exact Hq|]. split; [exact Hperm|exact Hrs].
Defined.

Lemma links_cut_for_next_page_witness :
  sorted_elements (self gap_end) = Some [1%nat] /\
  processed_elements gap_end = [0%nat] /\
  successors (store gap_end 0%nat) = [1%nat] /\
  predecessor (store gap_end 1%nat) = Some 0%nat /\
  exists c' st',
    finish_pass gap_end = Ok (false, c', st') /\
    predecessor (st' 1%nat) = None.
Proof.
  split; [reflexivity|]. split; [reflexivity|]. split; [reflexivity|].
  split; [reflexivity|].
  destruct (links_cut_for_next_page gap_end [1%nat] [Fragment 0%nat 80]
              eq_refl eq_refl) as (c' & st' & Hcall & _ & Hcut).
  exists c', st'. split; [exact Hcall|].
  destruct Hcut as (Hcut & _); [done|].
  apply (Hcut 0%nat 1%nat); simpl; left.
Defined.

Lemma other_elements_untouched_witness :
  sorted_elements chain_second_page.1 = Some [1%nat] /\
  (0%nat ∉ [1%nat]) /\
  match create_render_elements always render_whole 1000 tt (Some tt)
          chain_second_page.1 chain_second_page.2 with
  | Ok (_, _, st') =>
      st' 0%nat = chain_second_page.2 0%nat \/
      st' 0%nat = with_predecessor None (chain_second_page.2 0%nat)
  | _ => True
  end.
Proof.
  assert (Hout : 0%nat ∉ [1%nat]).
  { intros Hin. apply list_elem_of_singleton in Hin. discriminate Hin. }
  split; [reflexivity|]. split; [exact Hout|].
  apply (other_elements_untouched always render_whole 1000 tt (Some tt)
           chain_second_page.1 chain_second_page.2 [1%nat] 0%nat eq_refl Hout).
Defined.

Lemma cleanup_added_elements_witness :
  NoDup (doc_elements (container_of [0; 1]%nat)) /\
  cleanup mark_clean (container_of [0; 1]%nat) store_gap 0%nat =
    mark_clean (store_gap 0%nat) /\
  cleanup mark_clean (container_of [0; 1]%nat) store_gap 2%nat = store_gap 2%nat.
Proof.
  assert (Hnd : NoDup (doc_elements (container_of [0; 1]%nat))).
  { apply (bool_decide_unpack _). by vm_compute. }
  split; [exact Hnd|]. split.
  - exact (cleanup_added_elements mark_clean (container_of [0; 1]%nat) store_gap
             0%nat Hnd).
  - exact (cleanup_added_elements mark_clean (container_of [0; 1]%nat) store_gap
             2%nat Hnd).
Defined.

Lemma spreadsheet_columns_chain_witness :
  sorted_elements sheet.1 = Some [0; 1; 2; 3]%nat /\
  exists row' max_col' rows,
    render_spreadsheet one_cell 0 0 tt sheet.1 sheet.2 = Ok (row', max_col', rows) /\
    forall run n em1 em2,
      run ∈ rows -> run !! n = Some em1 -> run !! S n = Some em2 ->
      em_col em2 = em_next_col em1.
Proof.
  split; [reflexivity|].
  apply (spreadsheet_columns_chain one_cell 0 0 tt sheet.1 sheet.2 [0; 1; 2; 3]%nat).
  reflexivity.
Defined.

End MoreInstances.
